(** * Uncertainty-aware classification on tabular data

    A shallow embedding of [models/mlp.py] (the multi-layer perceptron and its
    training loop) and of [utils/visualizing_utils.py] (the result container
    and the incremental evaluation of metrics by uncertainty), followed by the
    properties established about them.

    Conventions of the embedding:
    - numbers the code computes with are IEEE 754 floating-point numbers
      ([spec_float] with the operations of [SpecFloat], rounding to nearest
      even): binary32 for the tensors of [mlp.py], binary64 for the numpy
      arrays of scores;
    - numbers the code only stores and compares (validation losses, labels,
      probabilities, uncertainties) are the finite values they denote, as
      rationals in canonical form ([Qc]); [float('inf')] is a separate
      constructor;
    - Python integers are [Z]; lists and one-dimensional arrays are [list];
    - an exception is the [Raise] outcome of the [result] monad;
    - dictionaries keyed by strings are [gmap string]. *)

From Stdlib Require Import ZArith QArith Qcanon Lia List SpecFloat.
From Stdlib Require Import Sorted Permutation.
From stdpp Require Import gmap strings list.

Open Scope Z_scope.

(** ** The Python runtime the two files rely on *)

Inductive exn : Type :=
| IndexError
| ValueError
| TypeError
| NameError
| RuntimeError
| ZeroDivisionError
| CallableError (msg : string).

Inductive result (A : Type) : Type :=
| Ok (a : A)
| Raise (e : exn).

Arguments Ok {A} a.
Arguments Raise {A} e.

Definition bind {A B : Type} (m : result A) (k : A -> result B) : result B :=
  match m with
  | Ok a => k a
  | Raise e => Raise e
  end.

Notation "'let!' x ':=' m 'in' k" := (bind m (fun x => k))
  (at level 10, x name, m at level 100, k at level 200).

(** [for x in xs: acc = body(acc, x)], stopping at the first exception. *)
Fixpoint for_each {A S : Type} (body : S -> A -> result S) (xs : list A) (acc : S)
  : result S :=
  match xs with
  | [] => Ok acc
  | x :: rest => let! acc' := body acc x in for_each body rest acc'
  end.

(** [[f(x) for x in xs]], stopping at the first exception. *)
Fixpoint map_each {A B : Type} (f : A -> result B) (xs : list A) : result (list B) :=
  match xs with
  | [] => Ok []
  | x :: rest => let! y := f x in let! ys := map_each f rest in Ok (y :: ys)
  end.

Definition len {A : Type} (l : list A) : Z := Z.of_nat (length l).

(** [l[i]] on a Python list: negative indices count from the end, anything
    out of range raises [IndexError]. *)
Definition getitem {A : Type} (l : list A) (i : Z) : result A :=
  let j := if i <? 0 then i + len l else i in
  if (0 <=? j) && (j <? len l)
  then match l !! Z.to_nat j with
       | Some x => Ok x
       | None => Raise IndexError
       end
  else Raise IndexError.

(** [len(range(start, stop, step))] for a non-zero step, as CPython computes it. *)
Definition range_length (start stop step : Z) : Z :=
  if 0 <? step
  then (if start <? stop then (stop - start - 1) / step + 1 else 0)
  else (if stop <? start then (start - stop - 1) / (- step) + 1 else 0).

(** [list(range(start, stop, step))]; a zero step raises [ValueError]. *)
Definition range (start stop step : Z) : result (list Z) :=
  if step =? 0 then Raise ValueError
  else Ok (map (fun k : nat => start + Z.of_nat k * step)
               (seq 0 (Z.to_nat (range_length start stop step)))).

(** [l[:i]]: the first [i] items, or all but the last [-i] when [i] is negative. *)
Definition slice_to {A : Type} (l : list A) (i : Z) : list A :=
  if 0 <=? i then firstn (Z.to_nat i) l
  else firstn (Z.to_nat (len l + i)) l.

(** Rational literals. *)
Definition frac (n : Z) (d : positive) : Qc := Q2Qc (n # d).

(** The rational that a count denotes. *)
Definition Qc_of_nat (n : nat) : Qc := Q2Qc (inject_Z (Z.of_nat n)).

(** ** Floating-point numbers *)

(** A binary32 number ([torch.float32]): the value [m * 2^e] rounded. *)
Definition f32 (m e : Z) : spec_float := binary_normalize 24 128 m e false.
Definition f32_sub : spec_float -> spec_float -> spec_float := SFsub 24 128.
Definition f32_div : spec_float -> spec_float -> spec_float := SFdiv 24 128.

(** A binary64 number ([numpy.float64] and Python's [float]). *)
Definition f64 (m e : Z) : spec_float := binary_normalize 53 1024 m e false.
Definition f64_add : spec_float -> spec_float -> spec_float := SFadd 53 1024.
Definition f64_sub : spec_float -> spec_float -> spec_float := SFsub 53 1024.
Definition f64_mul : spec_float -> spec_float -> spec_float := SFmul 53 1024.
Definition f64_div : spec_float -> spec_float -> spec_float := SFdiv 53 1024.
Definition f64_sqrt : spec_float -> spec_float := SFsqrt 53 1024.

(** The binary64 number nearest to an integer, to a count and to a fraction
    of integers (so [f64_frac 8 10] is the float written [0.8]). *)
Definition f64_of_Z (z : Z) : spec_float := f64 z 0.
Definition f64_of_nat (n : nat) : spec_float := f64_of_Z (Z.of_nat n).
Definition f64_frac (n : Z) (d : positive) : spec_float :=
  f64_div (f64_of_Z n) (f64_of_Z (Zpos d)).

(** ** models/mlp.py *)

(** The modules that [MLPModule] stacks; [nn.Linear(i, o)] maps [i] features
    to [o] features. *)
Inductive layer : Type :=
| Linear (in_features out_features : Z)
| BatchNorm1d (num_features : Z)
| ReLU
| Dropout (p : Qc).

(** The constructors of the modules. [nn.Linear] and [nn.BatchNorm1d] allocate
    their parameters and refuse a negative size; [nn.Dropout] refuses a rate
    outside [0, 1]. *)
Definition nn_Linear (in_features out_features : Z) : result layer :=
  if (in_features <? 0) || (out_features <? 0) then Raise RuntimeError
  else Ok (Linear in_features out_features).

Definition nn_BatchNorm1d (num_features : Z) : result layer :=
  if num_features <? 0 then Raise RuntimeError else Ok (BatchNorm1d num_features).

Definition nn_Dropout (p : Qc) : result layer :=
  if bool_decide (p < 0)%Qc || bool_decide (1 < p)%Qc then Raise ValueError
  else Ok (Dropout p).

(** [MLPModule.__init__]: the list handed to [nn.Sequential]. *)
Definition MLPModule_init (hidden_sizes : list Z) (input_size : Z) (dropout_rate : Qc)
    (output_size : Z) (do_batch_norm : bool) : result (list layer) :=
  let layers := [] in
  let! layers :=
    (if 0 <? len hidden_sizes
     then let! h0 := getitem hidden_sizes 0 in
          let! linear := nn_Linear input_size h0 in
          let layers := layers ++ [linear] in
          let! layers :=
            (if do_batch_norm
             then let! h0 := getitem hidden_sizes 0 in
                  let! norm := nn_BatchNorm1d h0 in
                  Ok (layers ++ [norm])
             else Ok layers) in
          let layers := layers ++ [ReLU] in
          let! dropout := nn_Dropout dropout_rate in
          Ok (layers ++ [dropout])
     else Ok layers) in
  let! idx := range 1 (len hidden_sizes) 1 in
  let! layers :=
    for_each (fun layers i =>
                let! hprev := getitem hidden_sizes (i - 1) in
                let! hi := getitem hidden_sizes i in
                let! linear := nn_Linear hprev hi in
                let layers := layers ++ [linear] in
                let! layers :=
                  (if do_batch_norm
                   then let! hi := getitem hidden_sizes i in
                        let! norm := nn_BatchNorm1d hi in
                        Ok (layers ++ [norm])
                   else Ok layers) in
                let layers := layers ++ [ReLU] in
                let! dropout := nn_Dropout dropout_rate in
                Ok (layers ++ [dropout]))
             idx layers in
  let! hlast := getitem hidden_sizes (-1) in
  let! linear := nn_Linear hlast output_size in
  Ok (layers ++ [linear]).

(** The loss object built by [get_loss_fn] is determined by its positive-class
    weight, a binary32 tensor. *)
Record BCEWithLogitsLoss : Type := { pos_weight : spec_float }.

Section GetLossFn.

(** The division of two tensors ([/]). It is a parameter so that a property
    can say where [get_loss_fn] does not use it; the code's is
    [torch_true_divide] below. *)
Variable true_divide : spec_float -> spec_float -> spec_float.

(** [MLP.get_loss_fn], with [self.class_weight] as first argument; [mean_y] is
    a binary32 tensor, and [1 - mean_y] is computed in binary32. *)
Definition get_loss_fn (class_weight : bool) (mean_y : spec_float) : BCEWithLogitsLoss :=
  let pos_weight :=
    if class_weight
    then if SFeqb mean_y (f32 0 0) then f32 0 0
         else if SFeqb mean_y (f32 1 0) then f32 1 0
         else true_divide (f32_sub (f32 1 0) mean_y) mean_y
    else f32 1 0 in
  {| pos_weight := pos_weight |}.

End GetLossFn.

(** Division of binary32 tensors: rounded to nearest, infinite or NaN on a
    zero divisor. *)
Definition torch_true_divide : spec_float -> spec_float -> spec_float := f32_div.

(** [prev_val_loss]: [float('inf')] before the first validation, then the last
    loss that was retained. *)
Inductive best_loss : Type :=
| Inf
| Retained (loss : Qc).

(** [val_loss > prev_val_loss]. *)
Definition loss_gt (val_loss : Qc) (prev_val_loss : best_loss) : bool :=
  match prev_val_loss with
  | Inf => false
  | Retained p => bool_decide (p < val_loss)%Qc
  end.

(** The local variables of [MLP.train] when the epoch loop is left. *)
Record train_state : Type := {
  epochs_run : nat;
  n_no_improvement : Z;
  prev_val_loss : best_loss
}.

Section Train.

(** [validate epoch] is the value of [self.validate(X_val, y_val)] at the end
    of the loop iteration number [epoch] (counted from 0): it results from
    the parameter updates of the mini-batch passes, which the embedding does
    not follow. *)
Variable validate : nat -> Qc.
Variable early_stopping : bool.
Variable early_stopping_patience : Z.

(** Lines 239-245: the body of [if early_stopping:]. *)
Definition early_stopping_update (val_loss : Qc) (n : Z) (prev : best_loss)
  : Z * best_loss :=
  if loss_gt val_loss prev then (n + 1, prev) else (0, Retained val_loss).

(** The counter and the retained loss after [k] epochs with early stopping
    enabled, when nothing leaves the loop. *)
Fixpoint after_epochs (k : nat) : Z * best_loss :=
  match k with
  | O => (0, Inf)
  | S k' => early_stopping_update (validate k') (fst (after_epochs k'))
              (snd (after_epochs k'))
  end.

(** The epoch loop, [remaining] iterations before [range(n_epochs)] is
    exhausted; [epoch] is the loop variable. *)
Fixpoint epoch_loop (remaining epoch : nat) (n : Z) (prev : best_loss) : train_state :=
  match remaining with
  | O => {| epochs_run := epoch; n_no_improvement := n; prev_val_loss := prev |}
  | S remaining' =>
      let '(n', prev') :=
        if early_stopping then early_stopping_update (validate epoch) n prev
        else (n, prev) in
      if early_stopping_patience <=? n'
      then {| epochs_run := S epoch; n_no_improvement := n'; prev_val_loss := prev' |}
      else epoch_loop remaining' (S epoch) n' prev'
  end.

Definition train (n_epochs : Z) : train_state :=
  epoch_loop (Z.to_nat n_epochs) 0 0 Inf.

End Train.

(** A validation loss sequence, continued by its last value once exhausted. *)
Definition loss_sequence (losses : list Qc) (epoch : nat) : Qc :=
  nth epoch losses (List.last losses 0%Qc).

(** ** numpy: reductions along axis 0 *)

(** [np.add.reduce] over one column of a two-dimensional binary64 array
    reduced along axis 0: the first value, to which each next one is added in
    turn. *)
Definition total (l : list spec_float) : spec_float :=
  match l with
  | [] => f64 0 0
  | x :: rest => fold_left f64_add rest x
  end.

(** [np.mean] over one column: the sum divided by the count. *)
Definition mean (l : list spec_float) : spec_float :=
  f64_div (total l) (f64_of_nat (length l)).

(** [np.var] over one column: the mean of the squared deviations from the
    mean, divisor [len] ([ddof=0]). *)
Definition variance (l : list spec_float) : spec_float :=
  mean (map (fun x => f64_mul (f64_sub x (mean l)) (f64_sub x (mean l))) l).

(** [np.std] over one column: the square root of [np.var]. *)
Definition std (l : list spec_float) : spec_float := f64_sqrt (variance l).

(** Column [j] of a list of rows. *)
Definition along_axis0 (rows : list (list spec_float)) (j : nat) : list spec_float :=
  map (fun r => nth j r (f64 0 0)) rows.

(** [list(np.array(rows).<reduce>(axis=0))] for a list of one-dimensional
    arrays. Rows of unequal length do not make a two-dimensional array and the
    reduction raises; an empty list reduces to a scalar, which [list] refuses. *)
Definition reduce_axis0 {A : Type} (f : list spec_float -> A)
    (rows : list (list spec_float)) : result (list A) :=
  match rows with
  | [] => Raise TypeError
  | r0 :: _ =>
      if forallb (fun r => Nat.eqb (length r) (length r0)) rows
      then Ok (map (fun j => f (along_axis0 rows j)) (seq 0 (length r0)))
      else Raise ValueError
  end.

Definition np_mean_axis0 (rows : list (list spec_float)) : result (list spec_float) :=
  reduce_axis0 mean rows.

Definition np_std_axis0 (rows : list (list spec_float)) : result (list spec_float) :=
  reduce_axis0 std rows.

(** ** utils/visualizing_utils.py *)

(** A two-dimensional array: its number of columns and its rows. *)
Record array2 : Type := { n_cols : Z; rows : list (list Qc) }.

(** [a[:, j]]. *)
Definition column (a : array2) (j : Z) : result (list Qc) :=
  let j' := if j <? 0 then j + n_cols a else j in
  if (0 <=? j') && (j' <? n_cols a)
  then map_each (fun r => getitem r j) (rows a)
  else Raise IndexError.

(** [d[name].append(x)] on a [defaultdict(list)]. *)
Definition lookup_default {A : Type} (d : gmap string (list A)) (name : string) : list A :=
  default [] (d !! name).

Definition touch {A : Type} (name : string) (d : gmap string (list A))
  : gmap string (list A) :=
  <[name := lookup_default d name]> d.

Definition append_to {A : Type} (name : string) (x : A) (d : gmap string (list A))
  : gmap string (list A) :=
  <[name := lookup_default d name ++ [x]]> d.

Record ResultContainer : Type := {
  uncertainties : gmap string (list (list Qc));
  predictions : gmap string (list (list Qc))
}.

(** [ResultContainer.__init__]. *)
Definition ResultContainer_init : ResultContainer :=
  {| uncertainties := ∅; predictions := ∅ |}.

Section AddResults.

(** [gen_utils.entropy(_, axis=1)] and [gen_utils.platt_scale] belong to
    [utils/modeling_utils.py], which is not part of the sources at hand; they
    are parameters, and either may raise. *)
Variable entropy : array2 -> result (list Qc).
Variable platt_scale : list Qc -> list Qc -> option (list Qc) -> result (list Qc).

(** [ResultContainer.add_results]. The container is mutated in place, so the
    container is returned also when the call raises: [self.uncertainties[name]]
    is evaluated (and the key created) before the argument of [append]. *)
Definition add_results (self : ResultContainer) (y_pred : array2) (name : string)
    (y_pred_val : option array2) (y_val : option (list Qc)) (calibrate : bool)
  : ResultContainer * result unit :=
  if negb calibrate then
    let self := {| uncertainties := touch name (uncertainties self);
                   predictions := predictions self |} in
    match entropy y_pred with
    | Raise e => (self, Raise e)
    | Ok u =>
        let self := {| uncertainties := append_to name u (uncertainties self);
                       predictions := touch name (predictions self) |} in
        match column y_pred 1 with
        | Raise e => (self, Raise e)
        | Ok p =>
            ({| uncertainties := uncertainties self;
                predictions := append_to name p (predictions self) |}, Ok tt)
        end
    end
  else
    match (let! p := column y_pred 1 in
           let! pv := match y_pred_val with
                      | Some v => column v 1
                      | None => Raise TypeError
                      end in
           platt_scale p pv y_val) with
    | Raise e => (self, Raise e)
    | Ok y_pred_calibrated =>
        let self := {| uncertainties := touch name (uncertainties self);
                       predictions := predictions self |} in
        match entropy y_pred with
        | Raise e => (self, Raise e)
        | Ok u =>
            ({| uncertainties := append_to name u (uncertainties self);
                predictions := append_to name y_pred_calibrated (predictions self) |},
             Ok tt)
        end
    end.

(** The arguments of one call of [add_results]. *)
Record call_args : Type := {
  arg_y_pred : array2;
  arg_name : string;
  arg_y_pred_val : option array2;
  arg_y_val : option (list Qc);
  arg_calibrate : bool
}.

(** A sequence of calls on one container; an exception ends the sequence. *)
Fixpoint add_all (self : ResultContainer) (calls : list call_args)
  : ResultContainer * result unit :=
  match calls with
  | [] => (self, Ok tt)
  | c :: rest =>
      match add_results self (arg_y_pred c) (arg_name c) (arg_y_pred_val c)
              (arg_y_val c) (arg_calibrate c) with
      | (self', Ok _) => add_all self' rest
      | (self', Raise e) => (self', Raise e)
      end
  end.

(** What a call stores as its prediction. *)
Definition stored_prediction (c : call_args) : result (list Qc) :=
  if arg_calibrate c
  then let! p := column (arg_y_pred c) 1 in
       let! pv := match arg_y_pred_val c with
                  | Some v => column v 1
                  | None => Raise TypeError
                  end in
       platt_scale p pv (arg_y_val c)
  else column (arg_y_pred c) 1.

End AddResults.


(** A metric: a callable on (labels, probabilities) that returns a float, and
    its [__name__]. *)
Record metric : Type := {
  metric_name : string;
  metric_call : list Qc -> list Qc -> result spec_float
}.

(** A row of the data frame built for one seed. *)
Record row : Type := {
  row_y_pred : Qc;
  row_minimum_y_pred : Qc;
  row_uncertainty : Qc;
  row_y : Qc
}.

Definition Qc_min (a b : Qc) : Qc := if bool_decide (a <= b)%Qc then a else b.

(** [pd.DataFrame({...})] of lines 211-216: the columns must have one length. *)
Definition DataFrame (y_pred uncertainty y : list Qc) : result (list row) :=
  if Nat.eqb (length uncertainty) (length y_pred) && Nat.eqb (length y) (length y_pred)
  then Ok (map (fun t : Qc * (Qc * Qc) =>
                  let '(p, (u, l)) := t in
                  {| row_y_pred := p;
                     row_minimum_y_pred := Qc_min (1 - p) p;
                     row_uncertainty := u;
                     row_y := l |})
               (combine y_pred (combine uncertainty y)))
  else Raise ValueError.

(** The order of [sort_values(by='uncertainty')]. *)
Definition by_uncertainty (a b : row) : Prop :=
  (row_uncertainty a <= row_uncertainty b)%Qc.

Fixpoint insert_by_uncertainty (r : row) (df : list row) : list row :=
  match df with
  | [] => [r]
  | h :: t =>
      if bool_decide (row_uncertainty r <= row_uncertainty h)%Qc
      then r :: h :: t
      else h :: insert_by_uncertainty r t
  end.

(** [df.sort_values(by='uncertainty')]: ascending. Rows of equal uncertainty
    are left in their order here; pandas does not fix their order, and no
    property below depends on it. *)
Definition sort_values (df : list row) : list row :=
  fold_right insert_by_uncertainty [] df.

(** Lines 222-225 for one seed: the metric on each slice [sorted_df[:i]].
    ([temp_xs] is filled alongside but never read.) *)
Definition incremental_scores (m : metric) (sorted_df : list row) (min_size step_size : Z)
  : result (list spec_float) :=
  let! sizes := range min_size (len sorted_df) step_size in
  map_each (fun i =>
              let temp := slice_to sorted_df i in
              metric_call m (map row_y temp) (map row_y_pred temp))
           sizes.

(** The body of the loop over seeds (lines 211-226). *)
Definition seed_run (y_test y_pred uncertainty : list (list Qc)) (m : metric)
    (min_size step_size : Z) (n : Z) : result (list spec_float * list row) :=
  let! p := getitem y_pred n in
  let! u := getitem uncertainty n in
  let! l := getitem y_test n in
  let! df := DataFrame p u l in
  let sorted_df := sort_values df in
  let! temp_score := incremental_scores m sorted_df min_size step_size in
  Ok (temp_score, sorted_df).

(** The three dictionaries that are returned, and [sorted_df], which is a
    local of the function and so outlives both loops. *)
Record loss_state : Type := {
  xs : gmap string (list Z);
  score : gmap string (list spec_float);
  score_std : gmap string (list spec_float);
  sorted_df : option (list row)
}.

(** The body of the loop over metrics (lines 209-231). *)
Definition metric_run (y_test y_pred uncertainty : list (list Qc))
    (min_size step_size : Z) (st : loss_state) (m : metric) : result loss_state :=
  let number_of_seeds := len uncertainty in
  let! seeds := range 0 number_of_seeds 1 in
  let! acc :=
    for_each (fun (acc : list (list spec_float) * option (list row)) n =>
                let! r := seed_run y_test y_pred uncertainty m min_size step_size n in
                Ok (fst acc ++ [fst r], Some (snd r)))
             seeds ([], sorted_df st) in
  let list_of_scores := fst acc in
  let! mean_scores := np_mean_axis0 list_of_scores in
  let! std_scores := np_std_axis0 list_of_scores in
  let! df := match snd acc with
             | Some df => Ok df
             | None => Raise NameError
             end in
  let! positions := range min_size (len df) step_size in
  Ok {| xs := <[metric_name m := positions]> (xs st);
        score := <[metric_name m := mean_scores]> (score st);
        score_std := <[metric_name m := std_scores]> (score_std st);
        sorted_df := snd acc |}.

(** [get_incremental_loss]. *)
Definition get_incremental_loss (y_test y_pred uncertainty : list (list Qc))
    (metrics : list metric) (min_size step_size : Z) : result loss_state :=
  for_each (metric_run y_test y_pred uncertainty min_size step_size) metrics
           {| xs := ∅; score := ∅; score_std := ∅; sorted_df := None |}.

(** Two metrics used in the examples: the share of points whose thresholded
    probability equals the label, and the probability of the last point. *)
Definition accuracy : metric :=
  {| metric_name := "accuracy";
     metric_call y p :=
       match y with
       | [] => Raise ZeroDivisionError
       | _ =>
           let hits :=
             List.filter (fun t : Qc * Qc =>
                            Qc_eq_bool (if bool_decide (frac 1 2 <= snd t)%Qc
                                        then 1 else 0)%Qc (fst t))
                         (combine y p) in
           Ok (f64_div (f64_of_nat (length hits)) (f64_of_nat (length (combine y p))))
       end |}.

Definition last_probability : metric :=
  {| metric_name := "last_probability";
     metric_call y p := match rev p with
                        | [] => Raise IndexError
                        | x :: _ => Ok (f64_frac (Qnum x) (Qden x))
                        end |}.

(** Stand-ins for the two functions of [modeling_utils.py], used only to
    instantiate them in the examples; no property depends on them. *)
Definition example_entropy (a : array2) : result (list Qc) :=
  map_each (fun r => match r with
                     | [p0; p1] => Ok (Qc_min p0 p1)
                     | _ => Raise ValueError
                     end)
           (rows a).

Definition example_platt_scale (p pv : list Qc) (y_val : option (list Qc))
  : result (list Qc) :=
  match y_val with
  | Some _ => Ok (map (fun x => (x * frac 1 2 + frac 1 4)%Qc) p)
  | None => Raise TypeError
  end.

Definition example_probabilities : array2 :=
  {| n_cols := 2; rows := [[frac 1 10; frac 9 10]; [frac 7 10; frac 3 10]] |}.

Definition example_calls : list call_args :=
  [ {| arg_y_pred := example_probabilities; arg_name := "mlp";
       arg_y_pred_val := None; arg_y_val := None; arg_calibrate := false |};
    {| arg_y_pred := example_probabilities; arg_name := "knn";
       arg_y_pred_val := Some example_probabilities; arg_y_val := Some [1; 0]%Qc;
       arg_calibrate := true |};
    {| arg_y_pred := example_probabilities; arg_name := "mlp";
       arg_y_pred_val := Some example_probabilities; arg_y_val := Some [1; 0]%Qc;
       arg_calibrate := true |} ].

(** ** Further parts of models/mlp.py *)

(** The block appended for one hidden layer (lines 34-38 and 41-45). *)
Definition hidden_block (in_features out_features : Z) (do_batch_norm : bool)
    (dropout_rate : Qc) : list layer :=
  [Linear in_features out_features]
  ++ (if do_batch_norm then [BatchNorm1d out_features] else [])
  ++ [ReLU; Dropout dropout_rate].

(** The [(in_features, out_features)] of the linear layers of a stack, in order. *)
Fixpoint linear_dims (layers : list layer) : list (Z * Z) :=
  match layers with
  | [] => []
  | Linear i o :: rest => (i, o) :: linear_dims rest
  | _ :: rest => linear_dims rest
  end.

(** [SimpleDataset]: predictors (one row per item) and targets. *)
Record SimpleDataset : Type := { ds_X : list (list Qc); ds_y : list Qc }.

(** [SimpleDataset.__len__]. *)
Definition SimpleDataset_len (self : SimpleDataset) : Z := len (ds_X self).

(** [SimpleDataset.__getitem__]. *)
Definition SimpleDataset_getitem (self : SimpleDataset) (idx : Z)
  : result (list Qc * Qc) :=
  let! x := getitem (ds_X self) idx in
  let! t := getitem (ds_y self) idx in
  Ok (x, t).

(** ** Further parts of utils/visualizing_utils.py *)

(** The three dictionaries an [UncertaintyAnalyzer] fills, keyed by method
    name and then by metric name. *)
Record UncertaintyAnalyzer : Type := {
  analyzer_xs : gmap string (gmap string (list Z));
  loss_dict : gmap string (gmap string (list spec_float));
  loss_std_dict : gmap string (gmap string (list spec_float))
}.

(** [UncertaintyAnalyzer._calculate_incremental_metrics], as run by
    [__init__] on the empty dictionaries. [uncertainty_dict] is given by its
    items in iteration order (the loop reads [uncertainty_dict[key]] for each
    of its own keys); [y_pred_dict] is a [defaultdict(list)], so a method it
    lacks reads as the empty list. *)
Definition calculate_incremental_metrics (y : list (list Qc))
    (y_pred_dict : gmap string (list (list Qc)))
    (uncertainty_dict : list (string * list (list Qc)))
    (metrics : list metric) (min_size step_size : Z) : result UncertaintyAnalyzer :=
  for_each (fun (self : UncertaintyAnalyzer) (item : string * list (list Qc)) =>
              let key := fst item in
              let! r := get_incremental_loss y (lookup_default y_pred_dict key)
                          (snd item) metrics min_size step_size in
              Ok {| analyzer_xs := <[key := xs r]> (analyzer_xs self);
                    loss_dict := <[key := score r]> (loss_dict self);
                    loss_std_dict := <[key := score_std r]> (loss_std_dict self) |})
           uncertainty_dict
           {| analyzer_xs := ∅; loss_dict := ∅; loss_std_dict := ∅ |}.

(** * Properties *)

(** ** Helpers on the runtime *)

Lemma Qc_eq_bool_true (a b : Qc) : Qc_eq_bool a b = true <-> a = b.
Proof.
  split; [apply Qc_eq_bool_correct|].
  intros ->. unfold Qc_eq_bool. destruct (Qcanon.Qc_eq_dec b b) as [_|Hne]; [reflexivity|].
  now destruct Hne.
Qed.

Lemma Qc_eq_bool_false (a b : Qc) : Qc_eq_bool a b = false <-> a <> b.
Proof.
  rewrite <- Qc_eq_bool_true. destruct (Qc_eq_bool a b); split; congruence.
Qed.

(** ** MLPModule.__init__ *)

(** C2 (as the code behaves): with an empty list of hidden sizes the
    constructor does not build a single linear layer from input to output; the
    hidden blocks are skipped, and the output layer then reads
    [hidden_sizes[-1]], which raises [IndexError], for every input size,
    output size, dropout rate and batch-norm flag. *)
Theorem MLPModule_init_empty_hidden_raises (n m : Z) (d : Qc) (b : bool) :
  MLPModule_init [] n d m b = Raise IndexError.
Proof. reflexivity. Qed.

(** ** MLP.get_loss_fn *)

(** C3: with class weighting the positive-class weight is exactly 0 at batch
    mean 0, exactly 1 at batch mean 1, and the binary32 quotient
    (1 - m) / m at any other mean (exactly 3 at mean 0.25); without class
    weighting it is exactly 1 at every mean. At means 0 and 1 the result is
    the same whatever the division computes: the division is not performed
    there. *)
Theorem get_loss_fn_pos_weight (divide : spec_float -> spec_float -> spec_float)
    (m : spec_float) :
  (SFeqb m (f32 0 0) = true ->
   get_loss_fn divide true m = {| pos_weight := f32 0 0 |}) /\
  (SFeqb m (f32 1 0) = true ->
   get_loss_fn divide true m = {| pos_weight := f32 1 0 |}) /\
  (SFeqb m (f32 0 0) = false -> SFeqb m (f32 1 0) = false ->
   get_loss_fn divide true m = {| pos_weight := divide (f32_sub (f32 1 0) m) m |} /\
   get_loss_fn torch_true_divide true m
   = {| pos_weight := f32_div (f32_sub (f32 1 0) m) m |}) /\
  get_loss_fn divide false m = {| pos_weight := f32 1 0 |} /\
  get_loss_fn torch_true_divide true (f32 1 (-2)) = {| pos_weight := f32 3 0 |}.
Proof.
  split; [|split; [|split; [|split]]].
  - intros H. unfold get_loss_fn. now rewrite H.
  - intros H. unfold get_loss_fn. rewrite H.
    destruct (SFeqb m (f32 0 0)) eqn:E; [|reflexivity].
    exfalso. destruct m as [[]|[]| |[] mm e]; try discriminate E; discriminate H.
  - intros H0 H1. unfold get_loss_fn. now rewrite H0, H1.
  - reflexivity.
  - vm_compute. reflexivity.
Qed.

Lemma get_loss_fn_pos_weight_witness :
  get_loss_fn (fun _ _ => S754_nan) true (S754_zero true) = {| pos_weight := f32 0 0 |}
  /\ get_loss_fn torch_true_divide true (f32_div (f32 1 0) (f32 3 0))
     = {| pos_weight :=
            f32_div (f32_sub (f32 1 0) (f32_div (f32 1 0) (f32 3 0)))
              (f32_div (f32 1 0) (f32 3 0)) |}.
Proof.
  split.
  - apply (proj1 (get_loss_fn_pos_weight (fun _ _ => S754_nan) (S754_zero true))).
    reflexivity.
  - apply (proj1 (proj2 (proj2 (get_loss_fn_pos_weight torch_true_divide
                                  (f32_div (f32 1 0) (f32 3 0))))));
      vm_compute; reflexivity.
Defined.

(** At the binary32 number nearest to 1/3 the quotient is rounded twice: the
    weight is 16777215/8388608, a little below 2. *)
Example get_loss_fn_third :
  get_loss_fn torch_true_divide true (f32_div (f32 1 0) (f32 3 0))
  = {| pos_weight := S754_finite false 16777215 (-23) |}.
Proof. vm_compute. reflexivity. Qed.

(** ** MLP.train *)

Section TrainProperties.

Variable validate : nat -> Qc.
Variable patience : Z.

Lemma epoch_loop_epochs_run_ge (es : bool) (r e : nat) (n : Z) (prev : best_loss) :
  (e + Nat.min 1 r <= epochs_run (epoch_loop validate es patience r e n prev))%nat.
Proof.
  revert e n prev. induction r as [|r IH]; intros e n prev; simpl; [lia|].
  destruct (if es then _ else _) as [n' prev'].
  destruct (patience <=? n'); simpl; [lia|].
  specialize (IH (S e) n' prev'). lia.
Qed.

Lemma epoch_loop_stops (r e k : nat) :
  (e < k <= e + r)%nat ->
  (forall j, (e < j < k)%nat -> fst (after_epochs validate j) < patience) ->
  patience <= fst (after_epochs validate k) ->
  epoch_loop validate true patience r e (fst (after_epochs validate e)) (snd (after_epochs validate e))
  = {| epochs_run := k;
       n_no_improvement := fst (after_epochs validate k);
       prev_val_loss := snd (after_epochs validate k) |}.
Proof.
  revert e. induction r as [|r IH]; intros e Hk Hlt Hge; [lia|].
  simpl. change (early_stopping_update (validate e) (fst (after_epochs validate e))
                   (snd (after_epochs validate e))) with (after_epochs validate (S e)).
  destruct (after_epochs validate (S e)) as [n' prev'] eqn:E.
  destruct (Nat.eq_dec k (S e)) as [->|Hne].
  - rewrite E in Hge. simpl in Hge.
    apply Z.leb_le in Hge. rewrite Hge, E. reflexivity.
  - assert (Hn : fst (after_epochs validate (S e)) < patience) by (apply Hlt; lia).
    rewrite E in Hn. simpl in Hn. apply Z.leb_gt in Hn. rewrite Hn.
    replace n' with (fst (after_epochs validate (S e))) by now rewrite E.
    replace prev' with (snd (after_epochs validate (S e))) by now rewrite E.
    apply IH; [lia| |assumption]. intros j Hj. apply Hlt. lia.
Qed.

Lemma epoch_loop_exhausts (r e : nat) :
  (forall j, (e < j <= e + r)%nat -> fst (after_epochs validate j) < patience) ->
  epoch_loop validate true patience r e (fst (after_epochs validate e)) (snd (after_epochs validate e))
  = {| epochs_run := e + r;
       n_no_improvement := fst (after_epochs validate (e + r));
       prev_val_loss := snd (after_epochs validate (e + r)) |}.
Proof.
  revert e. induction r as [|r IH]; intros e Hlt.
  - simpl. now rewrite Nat.add_0_r.
  - simpl. change (early_stopping_update (validate e) (fst (after_epochs validate e))
                     (snd (after_epochs validate e))) with (after_epochs validate (S e)).
    assert (Hn : fst (after_epochs validate (S e)) < patience) by (apply Hlt; lia).
    destruct (after_epochs validate (S e)) as [n' prev'] eqn:E.
    simpl in Hn. apply Z.leb_gt in Hn. rewrite Hn.
    replace n' with (fst (after_epochs validate (S e))) by now rewrite E.
    replace prev' with (snd (after_epochs validate (S e))) by now rewrite E.
    rewrite IH; [|intros j Hj; apply Hlt; lia].
    now replace (S e + r)%nat with (e + S r)%nat by lia.
Qed.

Lemma epoch_loop_runs_past (r e k : nat) :
  (e <= k < e + r)%nat ->
  (forall j, (e < j <= k)%nat -> fst (after_epochs validate j) < patience) ->
  (k < epochs_run (epoch_loop validate true patience r e
                     (fst (after_epochs validate e)) (snd (after_epochs validate e))))%nat.
Proof.
  revert e. induction r as [|r IH]; intros e Hk Hlt; [lia|].
  destruct (Nat.eq_dec k e) as [->|Hne].
  - pose proof (epoch_loop_epochs_run_ge true (S r) e
                  (fst (after_epochs validate e)) (snd (after_epochs validate e))) as G.
    simpl Nat.min in G. lia.
  - simpl. change (early_stopping_update (validate e) (fst (after_epochs validate e))
                     (snd (after_epochs validate e))) with (after_epochs validate (S e)).
    assert (Hn : fst (after_epochs validate (S e)) < patience) by (apply Hlt; lia).
    destruct (after_epochs validate (S e)) as [n' prev'] eqn:E.
    simpl in Hn. apply Z.leb_gt in Hn. rewrite Hn.
    replace n' with (fst (after_epochs validate (S e))) by now rewrite E.
    replace prev' with (snd (after_epochs validate (S e))) by now rewrite E.
    apply IH; [lia|]. intros j Hj. apply Hlt. lia.
Qed.

Lemma epoch_loop_without_early_stopping (r e : nat) (prev : best_loss) :
  1 <= patience ->
  epoch_loop validate false patience r e 0 prev
  = {| epochs_run := e + r; n_no_improvement := 0; prev_val_loss := prev |}.
Proof.
  intros Hp. revert e. induction r as [|r IH]; intros e; simpl.
  - now rewrite Nat.add_0_r.
  - assert (H : (patience <=? 0) = false) by (apply Z.leb_gt; lia).
    rewrite H, IH. f_equal. lia.
Qed.

End TrainProperties.


(** C1 as stated fails: a validation loss equal to the retained
    one does not increment the counter, and on the sequence 0.5, 0.4, 0.4,
    0.4 (staying at 0.4 afterwards) with patience 2 the 30 epochs all run:
    training does not stop after the 4th. *)
Lemma early_stopping_tie_resets_counter :
  fst (early_stopping_update (frac 4 10) 0 (Retained (frac 4 10))) <> 0 + 1 /\
  epochs_run
    (train (loss_sequence [frac 5 10; frac 4 10; frac 4 10; frac 4 10]) true 2 30)
  <> 4%nat.
Proof. split; vm_compute; discriminate. Qed.

(** C1 (amended): with early stopping enabled, a validation loss strictly
    worse than the retained one increments the no-improvement counter and
    keeps the retained loss; a loss lower than or equal to it (and any loss at
    the first epoch) resets the counter to zero and becomes the retained loss;
    training halts after the first epoch at which the counter reaches the
    patience, and runs all epochs if it never does. For the losses 0.5, 0.4,
    0.4, 0.4 with patience 2 the counter is 0 after the 4th epoch and a 5th
    epoch is run when there is one; for 0.5, 0.4, 0.45, 0.5 training stops
    after the 4th epoch. *)
Theorem early_stopping_strictly_worse (validate : nat -> Qc) (patience : Z)
    (v p : Qc) (n : Z) :
  ((p < v)%Qc -> early_stopping_update v n (Retained p) = (n + 1, Retained p)) /\
  ((v <= p)%Qc -> early_stopping_update v n (Retained p) = (0, Retained v)) /\
  early_stopping_update v n Inf = (0, Retained v) /\
  (forall (n_epochs : Z) (k : nat),
      (0 < k <= Z.to_nat n_epochs)%nat ->
      (forall j, (0 < j < k)%nat -> fst (after_epochs validate j) < patience) ->
      patience <= fst (after_epochs validate k) ->
      epochs_run (train validate true patience n_epochs) = k) /\
  (forall n_epochs : Z,
      (forall j, (0 < j <= Z.to_nat n_epochs)%nat ->
                 fst (after_epochs validate j) < patience) ->
      epochs_run (train validate true patience n_epochs) = Z.to_nat n_epochs) /\
  (forall n_epochs : Z,
      validate 0%nat = frac 5 10 -> validate 1%nat = frac 4 10 ->
      validate 2%nat = frac 4 10 -> validate 3%nat = frac 4 10 ->
      after_epochs validate 4 = (0, Retained (frac 4 10)) /\
      (5 <= n_epochs -> (5 <= epochs_run (train validate true 2 n_epochs))%nat)) /\
  (forall n_epochs : Z,
      4 <= n_epochs ->
      epochs_run
        (train (loss_sequence [frac 5 10; frac 4 10; frac 45 100; frac 5 10]) true 2
           n_epochs) = 4%nat).
Proof.
  split; [|split; [|split; [|split; [|split; [|split]]]]].
  - intros H. unfold early_stopping_update, loss_gt.
    now rewrite bool_decide_eq_true_2.
  - intros H. unfold early_stopping_update, loss_gt.
    rewrite bool_decide_eq_false_2; [reflexivity|]. now apply Qcle_not_lt.
  - reflexivity.
  - intros n_epochs k Hk Hlt Hge. unfold train.
    change 0 with (fst (after_epochs validate 0)) at 1.
    change Inf with (snd (after_epochs validate 0)).
    rewrite (epoch_loop_stops validate patience _ 0 k);
      [reflexivity | lia | assumption | assumption].
  - intros n_epochs Hlt. unfold train.
    change 0 with (fst (after_epochs validate 0)) at 1.
    change Inf with (snd (after_epochs validate 0)).
    rewrite epoch_loop_exhausts; [reflexivity | assumption].
  - intros n_epochs V0 V1 V2 V3.
    assert (A1 : after_epochs validate 1 = (0, Retained (frac 5 10))).
    { simpl. now rewrite V0. }
    assert (A2 : after_epochs validate 2 = (0, Retained (frac 4 10))).
    { change (after_epochs validate 2)
        with (early_stopping_update (validate 1%nat) (fst (after_epochs validate 1))
                (snd (after_epochs validate 1))).
      rewrite A1, V1. reflexivity. }
    assert (A3 : after_epochs validate 3 = (0, Retained (frac 4 10))).
    { change (after_epochs validate 3)
        with (early_stopping_update (validate 2%nat) (fst (after_epochs validate 2))
                (snd (after_epochs validate 2))).
      rewrite A2, V2. reflexivity. }
    assert (A4 : after_epochs validate 4 = (0, Retained (frac 4 10))).
    { change (after_epochs validate 4)
        with (early_stopping_update (validate 3%nat) (fst (after_epochs validate 3))
                (snd (after_epochs validate 3))).
      rewrite A3, V3. reflexivity. }
    split; [exact A4|]. intros H5. unfold train.
    change 0 with (fst (after_epochs validate 0)) at 1.
    change Inf with (snd (after_epochs validate 0)).
    apply (epoch_loop_runs_past validate 2 (Z.to_nat n_epochs) 0 4); [lia|].
    intros j Hj.
    destruct j as [|[|[|[|[|j]]]]]; try lia;
      [rewrite A1 | rewrite A2 | rewrite A3 | rewrite A4]; simpl; lia.
  - intros n_epochs H4.
    unfold train.
    destruct (Z.to_nat n_epochs) as [|[|[|[|r]]]] eqn:E; try lia.
    reflexivity.
Qed.

Lemma early_stopping_strictly_worse_witness :
  epochs_run
    (train (loss_sequence [frac 5 10; frac 4 10; frac 45 100; frac 5 10]) true 2 30)
  = 4%nat.
Proof.
  apply (proj1 (proj2 (proj2 (proj2
           (early_stopping_strictly_worse
              (loss_sequence [frac 5 10; frac 4 10; frac 45 100; frac 5 10]) 2
              0%Qc 0%Qc 0)))) 30 4%nat).
  - vm_compute. split; lia.
  - intros j Hj. destruct j as [|[|[|[|j]]]]; try lia; vm_compute; reflexivity.
  - vm_compute. discriminate.
Defined.

(** C9: with a patience of at least 1 and early stopping disabled, the counter
    stays 0, the break is never taken and the epoch loop runs exactly
    [n_epochs] times; with a patience of 0 the loop is left after the first
    epoch whatever the early-stopping flag and the validation losses are,
    since the test of the counter against the patience is made outside the
    early-stopping branch. *)
Theorem train_patience_checked_outside_branch (validate : nat -> Qc)
    (early_stopping : bool) (patience n_epochs : Z) :
  (1 <= patience ->
   train validate false patience n_epochs
   = {| epochs_run := Z.to_nat n_epochs; n_no_improvement := 0; prev_val_loss := Inf |}) /\
  (1 <= n_epochs -> epochs_run (train validate early_stopping 0 n_epochs) = 1%nat).
Proof.
  split.
  - intros Hp. unfold train.
    now rewrite epoch_loop_without_early_stopping.
  - intros Hn. unfold train.
    destruct (Z.to_nat n_epochs) as [|r] eqn:E; [lia|].
    destruct early_stopping; reflexivity.
Qed.

Lemma train_patience_checked_outside_branch_witness :
  train (loss_sequence [frac 5 10; frac 6 10; frac 7 10]) false 2 30
  = {| epochs_run := 30; n_no_improvement := 0; prev_val_loss := Inf |}
  /\ epochs_run (train (loss_sequence [frac 5 10; frac 6 10; frac 7 10]) true 0 30)
     = 1%nat.
Proof.
  split.
  - apply (proj1 (train_patience_checked_outside_branch
                    (loss_sequence [frac 5 10; frac 6 10; frac 7 10]) false 2 30)).
    lia.
  - apply (proj2 (train_patience_checked_outside_branch
                    (loss_sequence [frac 5 10; frac 6 10; frac 7 10]) true 0 30)).
    lia.
Defined.

(** ** Helpers on loops, ranges and slices *)

Lemma bind_Ok {A B : Type} (m : result A) (k : A -> result B) (b : B) :
  bind m k = Ok b -> exists a, m = Ok a /\ k a = Ok b.
Proof. destruct m as [a|e]; simpl; [eauto | discriminate]. Qed.

Ltac bind_inv H :=
  let a := fresh "a" in
  let Ha := fresh "Ha" in
  apply bind_Ok in H; destruct H as [a [Ha H]].

Lemma map_each_Ok {A B : Type} (f : A -> result B) (l : list A) (ys : list B) :
  map_each f l = Ok ys <-> Forall2 (fun x y => f x = Ok y) l ys.
Proof.
  revert ys. induction l as [|x l IH]; intros ys; simpl.
  - split; [intros [= <-]; constructor | inversion 1; reflexivity].
  - split.
    + intros H. bind_inv H. bind_inv H. injection H as <-.
      constructor; [assumption | now apply IH].
    + inversion 1 as [|? y ? ys' Hx Hl]; subst.
      rewrite Hx. simpl. apply IH in Hl. now rewrite Hl.
Qed.

Lemma map_each_total {A B : Type} (f : A -> result B) (g : A -> B) (l : list A) :
  (forall x, In x l -> f x = Ok (g x)) -> map_each f l = Ok (map g l).
Proof.
  induction l as [|x l IH]; intros H; simpl; [reflexivity|].
  rewrite (H x) by now left. simpl. rewrite IH; [reflexivity|].
  intros y Hy. apply H. now right.
Qed.

Lemma getitem_Ok {A : Type} (l : list A) (n : nat) (x : A) :
  getitem l (Z.of_nat n) = Ok x <-> l !! n = Some x.
Proof.
  unfold getitem, len.
  assert (Hn : (Z.of_nat n <? 0) = false) by (apply Z.ltb_ge; lia).
  rewrite Hn, Nat2Z.id.
  assert (H0 : (0 <=? Z.of_nat n) = true) by (apply Z.leb_le; lia).
  rewrite H0. simpl.
  destruct (Z.of_nat n <? Z.of_nat (length l)) eqn:E.
  - destruct (l !! n); split; congruence.
  - apply Z.ltb_ge in E. rewrite (lookup_ge_None_2 l n) by lia.
    split; discriminate.
Qed.

(** The sizes visited by [range] for a positive step. *)
Lemma range_length_pos (start stop step k : Z) :
  0 < step -> 0 <= k ->
  (k < range_length start stop step <-> start + k * step < stop).
Proof.
  intros Hs Hk. unfold range_length.
  assert (E : (0 <? step) = true) by (apply Z.ltb_lt; lia). rewrite E.
  destruct (start <? stop) eqn:L.
  - apply Z.ltb_lt in L.
    pose proof (Z.div_mod (stop - start - 1) step ltac:(lia)) as D.
    pose proof (Z.mod_pos_bound (stop - start - 1) step Hs) as M.
    split; intros H; nia.
  - apply Z.ltb_ge in L. split; intros H; nia.
Qed.

Lemma range_pos (start stop step : Z) :
  0 < step ->
  exists sizes,
    range start stop step = Ok sizes /\
    sizes = map (fun k : nat => start + Z.of_nat k * step)
                (seq 0 (Z.to_nat (range_length start stop step))) /\
    (forall i, In i sizes <->
               exists k, 0 <= k /\ i = start + k * step /\ i < stop).
Proof.
  intros Hs. eexists. split; [|split; [reflexivity|]].
  - unfold range. assert (E : (step =? 0) = false) by (apply Z.eqb_neq; lia).
    now rewrite E.
  - intros i. rewrite in_map_iff. split.
    + intros [k [<- Hk]]. apply in_seq in Hk. exists (Z.of_nat k).
      split; [lia|]. split; [reflexivity|].
      apply range_length_pos; lia.
    + intros [k [Hk [-> Hlt]]]. exists (Z.to_nat k). split; [f_equal; lia|].
      apply in_seq. apply range_length_pos in Hlt; lia.
Qed.


Lemma slice_to_nonneg {A : Type} (l : list A) (i : Z) :
  0 <= i -> slice_to l i = firstn (Z.to_nat i) l.
Proof.
  intros H. unfold slice_to. assert (E : (0 <=? i) = true) by now apply Z.leb_le.
  now rewrite E.
Qed.

Lemma slice_to_prefix {A : Type} (l : list A) (i : Z) :
  exists k, slice_to l i = firstn k l.
Proof. unfold slice_to. destruct (0 <=? i); eauto. Qed.

(** ** Helpers on data frames *)

Lemma insert_by_uncertainty_perm (r : row) (df : list row) :
  Permutation (r :: df) (insert_by_uncertainty r df).
Proof.
  induction df as [|h t IH]; simpl; [reflexivity|].
  destruct (bool_decide _); [reflexivity|].
  rewrite perm_swap. now constructor.
Qed.

Lemma insert_by_uncertainty_head (r x : row) (df : list row) :
  HdRel by_uncertainty x df -> by_uncertainty x r ->
  HdRel by_uncertainty x (insert_by_uncertainty r df).
Proof.
  intros Hd Hr. destruct df as [|h t]; simpl; [now constructor|].
  destruct (bool_decide _); constructor; [assumption|].
  now inversion Hd.
Qed.

Lemma insert_by_uncertainty_sorted (r : row) (df : list row) :
  Sorted by_uncertainty df -> Sorted by_uncertainty (insert_by_uncertainty r df).
Proof.
  induction 1 as [|h t Ht IH Hd]; simpl; [repeat constructor|].
  destruct (bool_decide _) eqn:E.
  - apply bool_decide_eq_true in E. repeat constructor; assumption.
  - apply bool_decide_eq_false in E. apply Qcnot_le_lt, Qclt_le_weak in E.
    constructor; [assumption|]. now apply insert_by_uncertainty_head.
Qed.

Lemma sort_values_perm (df : list row) : Permutation df (sort_values df).
Proof.
  induction df as [|r df IH]; simpl; [reflexivity|].
  rewrite <- insert_by_uncertainty_perm. now constructor.
Qed.

Lemma sort_values_sorted (df : list row) : Sorted by_uncertainty (sort_values df).
Proof.
  induction df as [|r df IH]; simpl; [constructor|].
  now apply insert_by_uncertainty_sorted.
Qed.

Lemma sort_values_length (df : list row) : length (sort_values df) = length df.
Proof. symmetry. apply Permutation_length, sort_values_perm. Qed.

Lemma DataFrame_Ok (p u l : list Qc) (df : list row) :
  DataFrame p u l = Ok df ->
  length u = length p /\ length l = length p /\ length df = length p /\
  map row_y_pred df = p /\ map row_uncertainty df = u /\ map row_y df = l.
Proof.
  unfold DataFrame. destruct (Nat.eqb (length u) (length p)) eqn:E1; [|discriminate].
  destruct (Nat.eqb (length l) (length p)) eqn:E2; [|discriminate].
  simpl. intros [= <-]. apply Nat.eqb_eq in E1, E2.
  split; [assumption|]. split; [assumption|].
  clear -E1 E2. revert u l E1 E2.
  induction p as [|x p IH]; intros [|y u] [|z l] E1 E2; try discriminate.
  - repeat split.
  - simpl in E1, E2. injection E1 as E1. injection E2 as E2.
    destruct (IH u l E1 E2) as [H1 [H2 [H3 H4]]].
    simpl. rewrite H1, H2, H3, H4. repeat split.
Qed.


(** ** Helpers on get_incremental_loss *)

Lemma range_seeds (n : nat) :
  range 0 (Z.of_nat n) 1 = Ok (map Z.of_nat (seq 0 n)).
Proof.
  assert (L : range_length 0 (Z.of_nat n) 1 = Z.of_nat n).
  { unfold range_length. change (0 <? 1) with true. cbv iota.
    destruct (0 <? Z.of_nat n) eqn:E.
    - rewrite Z.div_1_r. lia.
    - apply Z.ltb_ge in E. lia. }
  unfold range. change (1 =? 0) with false. cbv iota.
  rewrite L, Nat2Z.id. f_equal. apply map_ext. intros k. lia.
Qed.

Section IncrementalLoss.

Variables y_test y_pred uncertainty : list (list Qc).
Variables min_size step_size : Z.

Local Abbreviation run m n :=
  (seed_run y_test y_pred uncertainty m min_size step_size n).

Lemma seed_run_Ok (m : metric) (n : nat) (r : list spec_float * list row) :
  run m (Z.of_nat n) = Ok r ->
  exists p u l df,
    y_pred !! n = Some p /\ uncertainty !! n = Some u /\ y_test !! n = Some l /\
    DataFrame p u l = Ok df /\ snd r = sort_values df /\
    incremental_scores m (sort_values df) min_size step_size = Ok (fst r).
Proof.
  unfold seed_run. intros H.
  apply bind_Ok in H. destruct H as [p [Hp H]].
  apply bind_Ok in H. destruct H as [u [Hu H]].
  apply bind_Ok in H. destruct H as [l [Hl H]].
  apply bind_Ok in H. destruct H as [df [Hdf H]].
  apply bind_Ok in H. destruct H as [sc [Hsc H]].
  injection H as <-. apply getitem_Ok in Hp, Hu, Hl.
  exists p, u, l, df. auto 10.
Qed.

Lemma seeds_loop_Ok (m : metric) (seeds : list Z)
    (acc0 acc : list (list spec_float) * option (list row)) :
  for_each (fun (acc : list (list spec_float) * option (list row)) n =>
              let! r := run m n in Ok (fst acc ++ [fst r], Some (snd r)))
           seeds acc0 = Ok acc ->
  exists rs,
    Forall2 (fun n r => run m n = Ok r) seeds rs /\
    fst acc = fst acc0 ++ map fst rs /\
    snd acc = match last rs with
              | Some r => Some (snd r)
              | None => snd acc0
              end.
Proof.
  revert acc0. induction seeds as [|n seeds IH]; intros acc0 H; simpl in H.
  - injection H as <-. exists []. simpl. rewrite app_nil_r. auto.
  - apply bind_Ok in H. destruct H as [acc1 [H1 H]].
    apply bind_Ok in H1. destruct H1 as [r [Hr H1]]. injection H1 as <-.
    destruct (IH _ H) as [rs [HF [Hfst Hsnd]]].
    exists (r :: rs). split; [now constructor|]. split.
    + rewrite Hfst. simpl. now rewrite <- app_assoc.
    + rewrite Hsnd, last_cons. simpl. now destruct (last rs).
Qed.

Lemma reduce_axis0_Ok {A : Type} (f : list spec_float -> A) (rws : list (list spec_float))
    (out : list A) :
  reduce_axis0 f rws = Ok out ->
  exists r0 rest,
    rws = r0 :: rest /\
    Forall (fun r => length r = length r0) rws /\
    out = map (fun j => f (along_axis0 rws j)) (seq 0 (length r0)).
Proof.
  destruct rws as [|r0 rest]; [discriminate|]. unfold reduce_axis0.
  destruct (forallb _ _) eqn:E; [|discriminate].
  intros [= <-]. exists r0, rest. split; [reflexivity|]. split; [|reflexivity].
  apply Forall_forall. intros r Hr.
  rewrite forallb_forall in E. apply Nat.eqb_eq, E.
  now apply list_elem_of_In.
Qed.

(** What one iteration of the loop over metrics computes. *)
Lemma metric_run_Ok (st st' : loss_state) (m : metric) :
  metric_run y_test y_pred uncertainty min_size step_size st m = Ok st' ->
  exists rs means stds r_last positions,
    Forall2 (fun n r => run m n = Ok r)
            (map Z.of_nat (seq 0 (length uncertainty))) rs /\
    np_mean_axis0 (map fst rs) = Ok means /\
    np_std_axis0 (map fst rs) = Ok stds /\
    last rs = Some r_last /\
    range min_size (len (snd r_last)) step_size = Ok positions /\
    st' = {| xs := <[metric_name m := positions]> (xs st);
             score := <[metric_name m := means]> (score st);
             score_std := <[metric_name m := stds]> (score_std st);
             sorted_df := Some (snd r_last) |}.
Proof.
  unfold metric_run. intros H. unfold len at 1 in H. rewrite range_seeds in H.
  simpl in H.
  apply bind_Ok in H. destruct H as [acc [Hacc H]].
  apply seeds_loop_Ok in Hacc. destruct Hacc as [rs [HF [Hfst Hsnd]]].
  simpl in Hfst. rewrite Hfst in H.
  apply bind_Ok in H. destruct H as [means [Hmean H]].
  apply bind_Ok in H. destruct H as [stds [Hstd H]].
  apply bind_Ok in H. destruct H as [df [Hdf H]].
  apply bind_Ok in H. destruct H as [positions [Hpos H]].
  injection H as <-.
  destruct (last rs) as [r_last|] eqn:L.
  - rewrite Hsnd in Hdf. injection Hdf as <-.
    exists rs, means, stds, r_last, positions. rewrite Hsnd. auto 10.
  - apply last_None in L. subst rs. discriminate Hmean.
Qed.

(** The last seed's frame has as many rows as the last uncertainty array. *)
Lemma last_frame_length (m : metric) (rs : list (list spec_float * list row))
    (r_last : list spec_float * list row) :
  Forall2 (fun n r => run m n = Ok r)
          (map Z.of_nat (seq 0 (length uncertainty))) rs ->
  last rs = Some r_last ->
  exists u_last, last uncertainty = Some u_last /\
                 length (snd r_last) = length u_last.
Proof.
  intros HF L. pose proof (Forall2_length _ _ _ HF) as Hlen.
  rewrite length_map, length_seq in Hlen.
  rewrite last_lookup in L.
  assert (Hn : (pred (length rs) < length uncertainty)%nat).
  { apply lookup_lt_Some in L. lia. }
  assert (Hseed : map Z.of_nat (seq 0 (length uncertainty)) !! pred (length rs)
                  = Some (Z.of_nat (pred (length rs)))).
  { change (map Z.of_nat (seq 0 (length uncertainty)))
      with (Z.of_nat <$> seq 0 (length uncertainty)).
    rewrite list_lookup_fmap, lookup_seq_lt by assumption. reflexivity. }
  pose proof (Forall2_lookup_lr _ _ _ _ _ _ HF Hseed L) as Hrun.
  apply seed_run_Ok in Hrun.
  destruct Hrun as [p [u [l [df [Hp [Hu [Hl [Hdf [Hs _]]]]]]]]].
  exists u. split.
  - rewrite last_lookup, Hlen. exact Hu.
  - rewrite Hs, sort_values_length.
    apply DataFrame_Ok in Hdf. lia.
Qed.

Local Abbreviation metrics_loop :=
  (for_each (metric_run y_test y_pred uncertainty min_size step_size)).

Lemma for_each_app {A S : Type} (body : S -> A -> result S) (l1 l2 : list A) (s : S) :
  for_each body (l1 ++ l2) s = (let! s1 := for_each body l1 s in for_each body l2 s1).
Proof.
  revert s. induction l1 as [|x l1 IH]; intros s; simpl; [reflexivity|].
  destruct (body s x); simpl; [apply IH | reflexivity].
Qed.

(** Every metric writes the same x-positions: those of the last seed. *)
Lemma metric_run_xs (st st' : loss_state) (m : metric) :
  metric_run y_test y_pred uncertainty min_size step_size st m = Ok st' ->
  exists u_last positions,
    last uncertainty = Some u_last /\
    range min_size (len u_last) step_size = Ok positions /\
    xs st' = <[metric_name m := positions]> (xs st).
Proof.
  intros H. apply metric_run_Ok in H.
  destruct H as [rs [means [stds [r_last [positions [HF [_ [_ [L [Hr ->]]]]]]]]]].
  destruct (last_frame_length m rs r_last HF L) as [u_last [Hu Hlen]].
  exists u_last, positions. split; [assumption|]. split; [|reflexivity].
  unfold len in *. now rewrite <- Hlen.
Qed.

Lemma metrics_loop_xs_keep (ms : list metric) (st st' : loss_state)
    (u_last : list Qc) (positions : list Z) (key : string) :
  last uncertainty = Some u_last ->
  range min_size (len u_last) step_size = Ok positions ->
  metrics_loop ms st = Ok st' ->
  xs st !! key = Some positions -> xs st' !! key = Some positions.
Proof.
  intros Hu Hr. revert st. induction ms as [|m ms IH]; intros st H Hk; simpl in H.
  - now injection H as <-.
  - apply bind_Ok in H. destruct H as [st1 [H1 H]].
    apply (IH st1 H). apply metric_run_xs in H1.
    destruct H1 as [u' [pos' [Hu' [Hr' ->]]]].
    assert (u' = u_last) by congruence. subst u'.
    assert (pos' = positions) by congruence. subst pos'.
    destruct (decide (metric_name m = key)) as [->|Hne].
    + apply lookup_insert_eq.
    + now rewrite lookup_insert_ne.
Qed.

Lemma metrics_loop_xs (ms : list metric) (st st' : loss_state) (m : metric) :
  metrics_loop ms st = Ok st' -> In m ms ->
  exists u_last positions,
    last uncertainty = Some u_last /\
    range min_size (len u_last) step_size = Ok positions /\
    xs st' !! metric_name m = Some positions.
Proof.
  revert st. induction ms as [|m0 ms IH]; intros st H Hin; [destruct Hin|].
  simpl in H. apply bind_Ok in H. destruct H as [st1 [H1 H]].
  destruct Hin as [->|Hin]; [|now apply (IH st1)].
  apply metric_run_xs in H1. destruct H1 as [u_last [positions [Hu [Hr Hx]]]].
  exists u_last, positions. split; [assumption|]. split; [assumption|].
  apply (metrics_loop_xs_keep ms st1 st' u_last positions); try assumption.
  rewrite Hx. apply lookup_insert_eq.
Qed.

(** Metrics of other names leave an entry of the score dictionaries alone. *)
Lemma metrics_loop_score_keep (ms : list metric) (st st' : loss_state) (key : string) :
  metrics_loop ms st = Ok st' ->
  ~ In key (map metric_name ms) ->
  score st' !! key = score st !! key /\ score_std st' !! key = score_std st !! key.
Proof.
  revert st. induction ms as [|m ms IH]; intros st H Hk; simpl in H.
  - now injection H as <-.
  - apply bind_Ok in H. destruct H as [st1 [H1 H]].
    simpl in Hk. apply Decidable.not_or in Hk. destruct Hk as [Hne Hk].
    destruct (IH st1 H Hk) as [-> ->].
    apply metric_run_Ok in H1.
    destruct H1 as [rs [means [stds [r_last [positions [_ [_ [_ [_ [_ ->]]]]]]]]]].
    simpl. now rewrite !lookup_insert_ne.
Qed.

End IncrementalLoss.

(** ** get_incremental_loss: the x-positions *)

(** C10: whenever [get_incremental_loss] returns, the x-positions stored for
    each metric are [range(min_size, n, step_size)] with [n] the length of the
    last seed's arrays; two inputs whose last seeds have the same length get
    the same x-positions, whatever the sizes of their earlier seeds. *)
Theorem xs_from_last_seed (y_test y_pred uncertainty : list (list Qc))
    (metrics : list metric) (min_size step_size : Z) (res : loss_state) (m : metric) :
  get_incremental_loss y_test y_pred uncertainty metrics min_size step_size = Ok res ->
  In m metrics ->
  (exists u_last positions,
      last uncertainty = Some u_last /\
      range min_size (len u_last) step_size = Ok positions /\
      xs res !! metric_name m = Some positions) /\
  (forall (y_test' y_pred' uncertainty' : list (list Qc)) (res' : loss_state)
          (u_last u_last' : list Qc),
      get_incremental_loss y_test' y_pred' uncertainty' metrics min_size step_size
      = Ok res' ->
      last uncertainty = Some u_last -> last uncertainty' = Some u_last' ->
      length u_last = length u_last' ->
      xs res' !! metric_name m = xs res !! metric_name m).
Proof.
  intros H Hin. unfold get_incremental_loss in H.
  destruct (metrics_loop_xs _ _ _ _ _ _ _ _ m H Hin) as [u [pos [Hu [Hr Hx]]]].
  split; [now exists u, pos|].
  intros y_test' y_pred' uncertainty' res' u1 u2 H' Hu1 Hu2 Hlen.
  unfold get_incremental_loss in H'.
  destruct (metrics_loop_xs _ _ _ _ _ _ _ _ m H' Hin) as [u' [pos' [Hu' [Hr' Hx']]]].
  rewrite Hx, Hx'. f_equal.
  assert (u = u1) by congruence. assert (u' = u2) by congruence. subst.
  unfold len in *. rewrite Hlen in Hr. congruence.
Qed.

Lemma xs_from_last_seed_witness :
  exists res,
    get_incremental_loss
      [[1; 1; 0]%Qc; [1; 0; 0; 1]%Qc]
      [[frac 9 10; frac 8 10; frac 1 10]; [frac 9 10; frac 2 10; frac 1 10; frac 7 10]]
      [[frac 1 10; frac 2 10; frac 3 10]; [frac 1 10; frac 2 10; frac 3 10; frac 4 10]]
      [accuracy] 2 5 = Ok res /\
    xs res !! "accuracy" = Some [2].
Proof.
  eexists. split; [reflexivity|].
  match goal with
  | |- xs ?r !! _ = _ =>
      destruct (proj1 (xs_from_last_seed
        [[1; 1; 0]%Qc; [1; 0; 0; 1]%Qc]
        [[frac 9 10; frac 8 10; frac 1 10]; [frac 9 10; frac 2 10; frac 1 10; frac 7 10]]
        [[frac 1 10; frac 2 10; frac 3 10]; [frac 1 10; frac 2 10; frac 3 10; frac 4 10]]
        [accuracy] 2 5 r accuracy eq_refl (or_introl eq_refl)))
        as [u [pos [Hu [Hr Hx]]]]
  end.
  injection Hu as <-. injection Hr as <-. exact Hx.
Defined.

(** ** get_incremental_loss: what is evaluated for one seed *)

Lemma Forall2_impl_In {A B : Type} (P Q : A -> B -> Prop) (l : list A) (k : list B) :
  Forall2 P l k -> (forall x y, In x l -> P x y -> Q x y) -> Forall2 Q l k.
Proof.
  induction 1 as [|x y l k Hxy HF IH]; intros HPQ; constructor.
  - apply HPQ; [now left | assumption].
  - apply IH. intros a b Ha. apply HPQ. now right.
Qed.

(** C4: for every seed, the rows are sorted by ascending uncertainty (the
    sorted frame is an ordered permutation of the seed's points), and the
    metric is evaluated exactly once for each size i = min_size,
    min_size + step_size, min_size + 2 * step_size, ... below the number of
    points, on the labels and probabilities of the first i rows of the sorted
    frame; each such prefix has i rows, fewer than all. With min_size = 2 and
    step_size = 1 on a single seed of 5 points the x-positions are 2, 3, 4. *)
Theorem seed_run_prefixes :
  (forall (y_test y_pred uncertainty : list (list Qc)) (m : metric)
          (min_size step_size : Z) (n : nat) (temp_score : list spec_float) (frame : list row),
      0 <= min_size -> 0 < step_size ->
      seed_run y_test y_pred uncertainty m min_size step_size (Z.of_nat n)
      = Ok (temp_score, frame) ->
      exists p u l df sizes,
        y_pred !! n = Some p /\ uncertainty !! n = Some u /\ y_test !! n = Some l /\
        DataFrame p u l = Ok df /\
        frame = sort_values df /\ Sorted by_uncertainty frame /\ Permutation df frame /\
        range min_size (len frame) step_size = Ok sizes /\
        sizes = map (fun k : nat => min_size + Z.of_nat k * step_size)
                    (seq 0 (length sizes)) /\
        (forall i, In i sizes <->
                   exists k, 0 <= k /\ i = min_size + k * step_size /\ i < len u) /\
        Forall2 (fun i s =>
                   metric_call m (map row_y (firstn (Z.to_nat i) frame))
                     (map row_y_pred (firstn (Z.to_nat i) frame)) = Ok s /\
                   length (firstn (Z.to_nat i) frame) = Z.to_nat i /\
                   (Z.to_nat i < length frame)%nat)
                sizes temp_score) /\
  (forall (y p u : list Qc) (m : metric) (res : loss_state),
      length u = 5%nat ->
      get_incremental_loss [y] [p] [u] [m] 2 1 = Ok res ->
      xs res !! metric_name m = Some [2; 3; 4]).
Proof.
  split.
  - intros y_test y_pred uncertainty m min_size step_size n temp_score frame
      Hmin Hstep H.
    apply seed_run_Ok in H. simpl in H.
    destruct H as [p [u [l [df [Hp [Hu [Hl [Hdf [-> Hsc]]]]]]]]].
    destruct (range_pos min_size (len (sort_values df)) step_size Hstep)
      as [sizes [Hr [Hsizes Hin]]].
    pose proof (DataFrame_Ok _ _ _ _ Hdf) as [Hlu [_ [Hldf _]]].
    assert (Hlen : len (sort_values df) = len u).
    { unfold len. now rewrite sort_values_length, Hldf, Hlu. }
    exists p, u, l, df, sizes.
    repeat (split; [first [assumption | reflexivity | apply sort_values_sorted
                          | apply sort_values_perm] |]).
    split.
    { rewrite Hsizes at 1. now rewrite Hsizes, length_map, length_seq. }
    split.
    { intros i. rewrite <- Hlen. apply Hin. }
    unfold incremental_scores in Hsc. rewrite Hr in Hsc. simpl in Hsc.
    apply map_each_Ok in Hsc.
    apply (Forall2_impl_In _ _ _ _ Hsc). intros i s Hi Hcall.
    apply Hin in Hi. destruct Hi as [k [Hk [-> Hlt]]].
    assert (H0 : 0 <= min_size + k * step_size) by nia.
    rewrite slice_to_nonneg in Hcall by assumption.
    split; [assumption|]. unfold len in Hlt.
    split; [rewrite length_firstn|]; lia.
  - intros y p u m res Hlen H. unfold get_incremental_loss in H.
    destruct (metrics_loop_xs _ _ _ _ _ _ _ _ m H (or_introl eq_refl))
      as [u' [pos [Hu [Hr Hx]]]].
    injection Hu as <-. unfold len in Hr. rewrite Hlen in Hr.
    injection Hr as <-. exact Hx.
Qed.

Lemma seed_run_prefixes_witness :
  (exists temp_score frame,
      seed_run
        [[1; 1; 0; 0; 1]%Qc]
        [[frac 9 10; frac 8 10; frac 1 10; frac 2 10; frac 7 10]]
        [[frac 1 10; frac 3 10; frac 2 10; frac 5 10; frac 4 10]]
        accuracy 2 1 (Z.of_nat 0) = Ok (temp_score, frame) /\
      Sorted by_uncertainty frame) /\
  (exists res,
      get_incremental_loss
        [[1; 1; 0; 0; 1]%Qc]
        [[frac 9 10; frac 8 10; frac 1 10; frac 2 10; frac 7 10]]
        [[frac 1 10; frac 3 10; frac 2 10; frac 5 10; frac 4 10]]
        [accuracy] 2 1 = Ok res /\
      xs res !! "accuracy" = Some [2; 3; 4]).
Proof.
  split.
  - eexists. eexists. split; [reflexivity|].
    match goal with
    | |- Sorted _ ?f =>
        destruct (proj1 seed_run_prefixes
                    [[1; 1; 0; 0; 1]%Qc]
                    [[frac 9 10; frac 8 10; frac 1 10; frac 2 10; frac 7 10]]
                    [[frac 1 10; frac 3 10; frac 2 10; frac 5 10; frac 4 10]]
                    accuracy 2 1 0%nat _ f ltac:(lia) ltac:(lia) eq_refl)
          as [p [u [l [df [sizes [_ [_ [_ [_ [_ [Hs _]]]]]]]]]]]
    end.
    exact Hs.
  - eexists. split; [reflexivity|].
    match goal with
    | |- xs ?r !! _ = _ =>
        exact (proj2 seed_run_prefixes
                 [1; 1; 0; 0; 1]%Qc
                 [frac 9 10; frac 8 10; frac 1 10; frac 2 10; frac 7 10]
                 [frac 1 10; frac 3 10; frac 2 10; frac 5 10; frac 4 10]
                 accuracy r eq_refl eq_refl)
    end.
Defined.

(** ** get_incremental_loss: aggregation over seeds *)

Lemma map_lookup {A B : Type} (f : A -> B) (l : list A) (i : nat) :
  map f l !! i = f <$> (l !! i).
Proof. change (map f l) with (f <$> l). apply list_lookup_fmap. Qed.






(** ** get_incremental_loss: a metric that is 1 on every prefix *)

Lemma range_nonzero (start stop step : Z) :
  step <> 0 -> exists sizes, range start stop step = Ok sizes.
Proof.
  intros H. unfold range. apply Z.eqb_neq in H. rewrite H. eauto.
Qed.

Lemma map_seq_const {B : Type} (f : nat -> B) (c : B) (n : nat) :
  (forall j, (j < n)%nat -> f j = c) -> map f (seq 0 n) = repeat c n.
Proof.
  intros H. apply nth_ext with (d := f 0%nat) (d' := c).
  - now rewrite length_map, length_seq, repeat_length.
  - intros j Hj. rewrite length_map, length_seq in Hj.
    rewrite (nth_indep _ (f 0%nat) (f (0 + j)%nat))
      by now rewrite length_map, length_seq.
    rewrite map_nth, seq_nth by assumption.
    rewrite nth_repeat. simpl. now apply H.
Qed.

Lemma nth_map_const {A B : Type} (c d : B) (l : list A) (j : nat) :
  (j < length l)%nat -> nth j (map (fun _ => c) l) d = c.
Proof.
  revert j. induction l as [|x l IH]; intros j Hj; simpl in *; [lia|].
  destruct j; [reflexivity|]. apply IH. lia.
Qed.

Lemma mean_single_one : mean [f64 1 0] = f64 1 0.
Proof. vm_compute. reflexivity. Qed.

Lemma seed_run_single (y p u : list Qc) (m : metric) (min_size step_size : Z)
    (df : list row) :
  DataFrame p u y = Ok df ->
  seed_run [y] [p] [u] m min_size step_size 0
  = (let! temp_score := incremental_scores m (sort_values df) min_size step_size in
     Ok (temp_score, sort_values df)).
Proof.
  intros H. unfold seed_run.
  change (getitem [p] 0) with (Ok p). change (getitem [u] 0) with (Ok u).
  change (getitem [y] 0) with (Ok y). simpl. rewrite H. reflexivity.
Qed.

(** C8: for a single seed and a metric that evaluates to 1 on the prefixes of
    the uncertainty-sorted points (it is enough that it does on the slices
    [sorted_df[:i]] the loop visits, each of which is such a prefix),
    [get_incremental_loss] returns, and the score sequence it stores for the
    metric is 1 at every subset size. *)
Theorem score_constant_one (y p u : list Qc) (m : metric) (min_size step_size : Z)
    (df : list row) (positions : list Z) :
  DataFrame p u y = Ok df ->
  range min_size (len u) step_size = Ok positions ->
  (forall i, In i positions ->
             metric_call m (map row_y (slice_to (sort_values df) i))
               (map row_y_pred (slice_to (sort_values df) i)) = Ok (f64 1 0)) ->
  exists res,
    get_incremental_loss [y] [p] [u] [m] min_size step_size = Ok res /\
    xs res !! metric_name m = Some positions /\
    score res !! metric_name m = Some (repeat (f64 1 0) (length positions)).
Proof.
  intros Hdf Hr Hone.
  assert (Hlen : len (sort_values df) = len u).
  { unfold len. rewrite sort_values_length.
    apply DataFrame_Ok in Hdf. destruct Hdf as [Hu [_ [Hd _]]]. now rewrite Hd, Hu. }
  rewrite <- Hlen in Hr.
  assert (Hsc : incremental_scores m (sort_values df) min_size step_size
                = Ok (map (fun _ => (f64 1 0)) positions)).
  { unfold incremental_scores. rewrite Hr. cbn [bind].
    apply map_each_total. exact Hone. }
  assert (Hmean : np_mean_axis0 [map (fun _ => (f64 1 0)) positions]
                  = Ok (repeat (f64 1 0) (length positions))).
  { unfold np_mean_axis0, reduce_axis0. simpl forallb.
    rewrite Nat.eqb_refl. simpl andb. cbv iota. f_equal.
    rewrite length_map. apply map_seq_const. intros j Hj.
    unfold along_axis0. simpl map.
    rewrite nth_map_const by assumption. apply mean_single_one. }
  assert (Hstd : exists stds, np_std_axis0 [map (fun _ => (f64 1 0)) positions] = Ok stds).
  { unfold np_std_axis0, reduce_axis0. simpl forallb.
    rewrite Nat.eqb_refl. simpl andb. cbv iota. eauto. }
  destruct Hstd as [stds Hstd].
  exists {| xs := <[metric_name m := positions]> ∅;
            score := <[metric_name m := repeat (f64 1 0) (length positions)]> ∅;
            score_std := <[metric_name m := stds]> ∅;
            sorted_df := Some (sort_values df) |}.
  split; [|split; simpl; apply lookup_insert_eq].
  unfold get_incremental_loss. simpl for_each. unfold metric_run.
  change (len [u]) with 1. change (range 0 1 1) with (Ok [0]).
  cbn [for_each bind fst snd app].
  rewrite (seed_run_single _ _ _ _ _ _ _ Hdf), Hsc.
  cbn [for_each bind fst snd app].
  rewrite Hmean, Hstd. cbn [bind]. rewrite Hr. reflexivity.
Qed.

Lemma score_constant_one_witness :
  exists res,
    get_incremental_loss
      [[1; 1; 0; 0; 1]%Qc]
      [[frac 9 10; frac 8 10; frac 1 10; frac 2 10; frac 7 10]]
      [[frac 1 10; frac 3 10; frac 2 10; frac 5 10; frac 4 10]]
      [accuracy] 2 1 = Ok res /\
    xs res !! "accuracy" = Some [2; 3; 4] /\
    score res !! "accuracy" = Some [f64 1 0; f64 1 0; f64 1 0].
Proof.
  refine (score_constant_one
            [1; 1; 0; 0; 1]%Qc
            [frac 9 10; frac 8 10; frac 1 10; frac 2 10; frac 7 10]
            [frac 1 10; frac 3 10; frac 2 10; frac 5 10; frac 4 10]
            accuracy 2 1 _ [2; 3; 4] eq_refl eq_refl _).
  intros i [<-|[<-|[<-|[]]]]; vm_compute; reflexivity.
Defined.

(** ** ResultContainer.add_results *)

Section AddResultsProperties.

Variable entropy : array2 -> result (list Qc).
Variable platt_scale : list Qc -> list Qc -> option (list Qc) -> result (list Qc).

Lemma append_to_touch {A : Type} (name : string) (x : A) (d : gmap string (list A)) :
  append_to name x (touch name d) = append_to name x d.
Proof.
  unfold append_to, touch, lookup_default.
  now rewrite lookup_insert_eq, insert_insert_eq.
Qed.


(** What a call that returns normally has stored. *)
Lemma add_results_Ok (self self' : ResultContainer) (c : call_args) :
  add_results entropy platt_scale self (arg_y_pred c) (arg_name c)
    (arg_y_pred_val c) (arg_y_val c) (arg_calibrate c) = (self', Ok tt) ->
  exists u p,
    entropy (arg_y_pred c) = Ok u /\
    stored_prediction platt_scale c = Ok p /\
    uncertainties self' = append_to (arg_name c) u (uncertainties self) /\
    predictions self' = append_to (arg_name c) p (predictions self).
Proof.
  unfold add_results, stored_prediction.
  destruct (arg_calibrate c); simpl.
  - destruct (bind (column (arg_y_pred c) 1) _) as [pc|e]; [|discriminate].
    destruct (entropy (arg_y_pred c)) as [u|e]; [|discriminate].
    intros [= <-]. exists u, pc. simpl. rewrite append_to_touch. auto.
  - destruct (entropy (arg_y_pred c)) as [u|e]; [|discriminate].
    destruct (column (arg_y_pred c) 1) as [p|e]; [|discriminate].
    intros [= <-]. exists u, p. simpl. rewrite !append_to_touch. auto.
Qed.


End AddResultsProperties.

Section ResultContainerProperties.

Variable entropy : array2 -> result (list Qc).
Variable platt_scale : list Qc -> list Qc -> option (list Qc) -> result (list Qc).

(** C5: a call of [add_results] that returns stores, under its method name,
    the entropy of the raw predicted probabilities as uncertainty, with
    [calibrate] set or not; as prediction it stores the Platt-scaled
    positive-class probabilities when [calibrate] is set and the raw
    positive-class probabilities when it is not. The stored uncertainties
    are therefore the same for both values of the flag. *)
Theorem uncertainty_invariant_to_calibration (self : ResultContainer)
    (y_pred : array2) (name : string) (y_pred_val : option array2)
    (y_val : option (list Qc)) :
  (forall self_raw,
      add_results entropy platt_scale self y_pred name y_pred_val y_val false
      = (self_raw, Ok tt) ->
      exists u p,
        entropy y_pred = Ok u /\ column y_pred 1 = Ok p /\
        uncertainties self_raw = append_to name u (uncertainties self) /\
        predictions self_raw = append_to name p (predictions self)) /\
  (forall self_cal,
      add_results entropy platt_scale self y_pred name y_pred_val y_val true
      = (self_cal, Ok tt) ->
      exists u p val pv calibrated,
        entropy y_pred = Ok u /\ column y_pred 1 = Ok p /\
        y_pred_val = Some val /\ column val 1 = Ok pv /\
        platt_scale p pv y_val = Ok calibrated /\
        uncertainties self_cal = append_to name u (uncertainties self) /\
        predictions self_cal = append_to name calibrated (predictions self)) /\
  (forall self_raw self_cal,
      add_results entropy platt_scale self y_pred name y_pred_val y_val false
      = (self_raw, Ok tt) ->
      add_results entropy platt_scale self y_pred name y_pred_val y_val true
      = (self_cal, Ok tt) ->
      uncertainties self_cal = uncertainties self_raw).
Proof.
  assert (Hraw : forall self_raw,
      add_results entropy platt_scale self y_pred name y_pred_val y_val false
      = (self_raw, Ok tt) ->
      exists u p,
        entropy y_pred = Ok u /\ column y_pred 1 = Ok p /\
        uncertainties self_raw = append_to name u (uncertainties self) /\
        predictions self_raw = append_to name p (predictions self)).
  { intros self_raw H.
    apply (add_results_Ok entropy platt_scale self self_raw
             {| arg_y_pred := y_pred; arg_name := name; arg_y_pred_val := y_pred_val;
                arg_y_val := y_val; arg_calibrate := false |}) in H.
    exact H. }
  assert (Hcal : forall self_cal,
      add_results entropy platt_scale self y_pred name y_pred_val y_val true
      = (self_cal, Ok tt) ->
      exists u p val pv calibrated,
        entropy y_pred = Ok u /\ column y_pred 1 = Ok p /\
        y_pred_val = Some val /\ column val 1 = Ok pv /\
        platt_scale p pv y_val = Ok calibrated /\
        uncertainties self_cal = append_to name u (uncertainties self) /\
        predictions self_cal = append_to name calibrated (predictions self)).
  { intros self_cal H.
    apply (add_results_Ok entropy platt_scale self self_cal
             {| arg_y_pred := y_pred; arg_name := name; arg_y_pred_val := y_pred_val;
                arg_y_val := y_val; arg_calibrate := true |}) in H.
    destruct H as [u [c [Hu [Hc [Eu Ep]]]]].
    unfold stored_prediction in Hc. simpl in Hc.
    apply bind_Ok in Hc. destruct Hc as [p [Hp Hc]].
    apply bind_Ok in Hc. destruct Hc as [pv [Hpv Hc]].
    destruct y_pred_val as [val|]; [|discriminate].
    exists u, p, val, pv, c. auto 10. }
  split; [exact Hraw|]. split; [exact Hcal|].
  intros self_raw self_cal H1 H2.
  destruct (Hraw _ H1) as [u [p [Hu [_ [E1 _]]]]].
  destruct (Hcal _ H2) as [u' [p' [val [pv [c [Hu' [_ [_ [_ [_ [E2 _]]]]]]]]]]].
  rewrite E1, E2. congruence.
Qed.


End ResultContainerProperties.

Lemma uncertainty_invariant_to_calibration_witness :
  uncertainties
    (fst (add_results example_entropy example_platt_scale ResultContainer_init
            example_probabilities "mlp" (Some example_probabilities)
            (Some [1; 0]%Qc) true))
  = uncertainties
      (fst (add_results example_entropy example_platt_scale ResultContainer_init
              example_probabilities "mlp" (Some example_probabilities)
              (Some [1; 0]%Qc) false)).
Proof.
  apply (proj2 (proj2 (uncertainty_invariant_to_calibration
                         example_entropy example_platt_scale ResultContainer_init
                         example_probabilities "mlp" (Some example_probabilities)
                         (Some [1; 0]%Qc))));
    reflexivity.
Defined.


(** A call that raises leaves what it had already stored: without calibration
    the uncertainty is appended before [y_pred[:, 1]] is read, so an array
    with a single column is refused only after the container has changed. *)
Example add_results_raise_after_append :
  let out := add_results example_entropy example_platt_scale ResultContainer_init
               {| n_cols := 1; rows := [] |} "mlp" None None false in
  snd out = Raise IndexError /\
  lookup_default (uncertainties (fst out)) "mlp" = [[]] /\
  lookup_default (predictions (fst out)) "mlp" = [].
Proof. repeat split. Qed.

(** * Further properties *)

(** ** MLP.train: what the loop leaves behind *)

Section TrainInvariants.

Variable validate : nat -> Qc.
Variable patience : Z.

Lemma epoch_loop_epochs_run_le (es : bool) (r e : nat) (n : Z) (prev : best_loss) :
  (epochs_run (epoch_loop validate es patience r e n prev) <= e + r)%nat.
Proof.
  revert e n prev. induction r as [|r IH]; intros e n prev; simpl; [lia|].
  destruct (if es then _ else _) as [n' prev'].
  destruct (patience <=? n'); simpl; [lia|].
  specialize (IH (S e) n' prev'). lia.
Qed.

(** With early stopping the loop is left in the state reached after the
    epochs it ran. *)
Lemma epoch_loop_final (r e : nat) :
  let st := epoch_loop validate true patience r e
              (fst (after_epochs validate e)) (snd (after_epochs validate e)) in
  n_no_improvement st = fst (after_epochs validate (epochs_run st)) /\
  prev_val_loss st = snd (after_epochs validate (epochs_run st)).
Proof.
  revert e. induction r as [|r IH]; intros e; cbv zeta; cbn [epoch_loop].
  - cbn [epochs_run n_no_improvement prev_val_loss]. auto.
  - change (early_stopping_update (validate e) (fst (after_epochs validate e))
              (snd (after_epochs validate e))) with (after_epochs validate (S e)).
    destruct (after_epochs validate (S e)) as [n' prev'] eqn:E.
    destruct (patience <=? n').
    + cbn [epochs_run n_no_improvement prev_val_loss]. rewrite E. auto.
    + replace n' with (fst (after_epochs validate (S e))) by now rewrite E.
      replace prev' with (snd (after_epochs validate (S e))) by now rewrite E.
      apply IH.
Qed.

Lemma train_final (n_epochs : Z) :
  let st := train validate true patience n_epochs in
  n_no_improvement st = fst (after_epochs validate (epochs_run st)) /\
  prev_val_loss st = snd (after_epochs validate (epochs_run st)).
Proof. apply (epoch_loop_final (Z.to_nat n_epochs) 0). Qed.

(** The retained loss is the least loss seen, and the counter is the number of
    epochs since it was seen. *)
Lemma after_epochs_invariant (k : nat) :
  (0 < k)%nat ->
  exists best : nat,
    (best < k)%nat /\
    after_epochs validate k = (Z.of_nat (k - 1 - best), Retained (validate best)) /\
    (forall j, (j < k)%nat -> (validate best <= validate j)%Qc) /\
    (forall j, (best < j < k)%nat -> (validate best < validate j)%Qc).
Proof.
  induction k as [|k IH]; [lia|]. intros _.
  destruct k as [|k].
  - exists 0%nat. simpl. split; [lia|]. split; [reflexivity|]. split.
    + intros j Hj. assert (j = 0%nat) by lia. subst j. apply Qcle_refl.
    + intros j Hj. lia.
  - destruct IH as [best [Hb [E [Hmin Hgt]]]]; [lia|].
    change (after_epochs validate (S (S k)))
      with (early_stopping_update (validate (S k))
              (fst (after_epochs validate (S k))) (snd (after_epochs validate (S k)))).
    rewrite E. unfold early_stopping_update, loss_gt. cbn [fst snd].
    case_bool_decide as Hlt.
    + exists best. split; [lia|]. split; [f_equal; lia|]. split.
      * intros j Hj. destruct (Nat.eq_dec j (S k)) as [->|Hne].
        -- now apply Qclt_le_weak.
        -- apply Hmin. lia.
      * intros j Hj. destruct (Nat.eq_dec j (S k)) as [->|Hne]; [assumption|].
        apply Hgt. lia.
    + apply Qcnot_lt_le in Hlt. exists (S k). split; [lia|]. split.
      * f_equal. lia.
      * split.
        -- intros j Hj. destruct (Nat.eq_dec j (S k)) as [->|Hne].
           ++ apply Qcle_refl.
           ++ apply Qcle_trans with (validate best); [assumption|]. apply Hmin. lia.
        -- intros j Hj. lia.
Qed.

End TrainInvariants.

(** X1: the epoch loop never runs more than [n_epochs] epochs; for
    [n_epochs <= 0] it runs none and leaves the counter at 0 and the retained
    loss at infinity; for [n_epochs >= 1] it runs at least one, whatever the
    patience and the early-stopping flag. *)
Theorem train_epochs_bounds (validate : nat -> Qc) (early_stopping : bool)
    (patience n_epochs : Z) :
  (epochs_run (train validate early_stopping patience n_epochs) <= Z.to_nat n_epochs)%nat /\
  (n_epochs <= 0 ->
   train validate early_stopping patience n_epochs
   = {| epochs_run := 0; n_no_improvement := 0; prev_val_loss := Inf |}) /\
  (1 <= n_epochs ->
   (1 <= epochs_run (train validate early_stopping patience n_epochs))%nat).
Proof.
  unfold train. split; [|split].
  - apply (epoch_loop_epochs_run_le validate patience early_stopping _ 0).
  - intros H. replace (Z.to_nat n_epochs) with 0%nat by lia. reflexivity.
  - intros H.
    pose proof (epoch_loop_epochs_run_ge validate patience early_stopping
                  (Z.to_nat n_epochs) 0 0 Inf) as G.
    destruct (Z.to_nat n_epochs) eqn:E; [lia|]. simpl Nat.min in G. lia.
Qed.

Lemma train_epochs_bounds_witness :
  train (loss_sequence [frac 5 10]) true 2 (-3)
  = {| epochs_run := 0; n_no_improvement := 0; prev_val_loss := Inf |}
  /\ (1 <= epochs_run (train (loss_sequence [frac 5 10]) true (-1) 7))%nat.
Proof.
  split.
  - apply (proj1 (proj2 (train_epochs_bounds (loss_sequence [frac 5 10]) true 2 (-3)))).
    lia.
  - apply (proj2 (proj2 (train_epochs_bounds (loss_sequence [frac 5 10]) true (-1) 7))).
    lia.
Defined.



(** X3: with early stopping, when training ends after at least one epoch the
    no-improvement counter is the number of epochs that ran after the one
    whose loss is retained, and each of those later epochs had a strictly
    higher loss. *)
Theorem train_counter_counts_worse_epochs (validate : nat -> Qc)
    (patience n_epochs : Z) :
  1 <= n_epochs ->
  let st := train validate true patience n_epochs in
  exists best : nat,
    (best < epochs_run st)%nat /\
    prev_val_loss st = Retained (validate best) /\
    n_no_improvement st = Z.of_nat (epochs_run st - 1 - best) /\
    forall j, (best < j < epochs_run st)%nat -> (validate best < validate j)%Qc.
Proof.
  intros Hn st.
  destruct (train_final validate patience n_epochs) as [Hc Hp].
  fold st in Hc, Hp.
  assert (He : (0 < epochs_run st)%nat).
  { pose proof (proj2 (proj2 (train_epochs_bounds validate true patience n_epochs)) Hn).
    fold st in H. lia. }
  destruct (after_epochs_invariant validate _ He) as [best [Hb [E [_ Hgt]]]].
  exists best. rewrite Hc, Hp, E. auto.
Qed.

Lemma train_counter_counts_worse_epochs_witness :
  exists best : nat,
    n_no_improvement
      (train (loss_sequence [frac 5 10; frac 3 10; frac 4 10; frac 6 10]) true 2 30)
    = Z.of_nat
        (epochs_run
           (train (loss_sequence [frac 5 10; frac 3 10; frac 4 10; frac 6 10]) true 2 30)
         - 1 - best).
Proof.
  destruct (train_counter_counts_worse_epochs
              (loss_sequence [frac 5 10; frac 3 10; frac 4 10; frac 6 10]) 2 30
              ltac:(lia)) as [best [_ [_ [H _]]]].
  exists best. exact H.
Defined.

Lemma epoch_loop_counter_le (validate : nat -> Qc) (patience : Z) (r e : nat)
    (n : Z) (prev : best_loss) :
  n < patience -> 0 < patience ->
  let st := epoch_loop validate true patience r e n prev in
  n_no_improvement st <= patience /\
  ((epochs_run st < e + r)%nat -> n_no_improvement st = patience).
Proof.
  intros Hn Hp. revert e n prev Hn.
  induction r as [|r IH]; intros e n prev Hn; cbv zeta; cbn [epoch_loop].
  - cbn [epochs_run n_no_improvement]. split; [lia|]. intros H. lia.
  - assert (Hu : fst (early_stopping_update (validate e) n prev) <= patience).
    { unfold early_stopping_update. destruct (loss_gt _ _); simpl; lia. }
    destruct (early_stopping_update (validate e) n prev) as [n' prev'].
    simpl in Hu. destruct (patience <=? n') eqn:E.
    + apply Z.leb_le in E. cbn [epochs_run n_no_improvement]. split; lia.
    + apply Z.leb_gt in E. destruct (IH (S e) n' prev' E) as [H1 H2].
      split; [exact H1|]. intros H. apply H2. lia.
Qed.

(** X4: with early stopping and a patience of at least 1, the counter never
    exceeds the patience, and when training ends before [n_epochs] epochs
    have run the counter is exactly the patience. *)
Theorem train_counter_at_most_patience (validate : nat -> Qc) (patience n_epochs : Z) :
  1 <= patience ->
  let st := train validate true patience n_epochs in
  0 <= n_no_improvement st <= patience /\
  ((epochs_run st < Z.to_nat n_epochs)%nat -> n_no_improvement st = patience).
Proof.
  intros Hp st.
  destruct (epoch_loop_counter_le validate patience (Z.to_nat n_epochs) 0 0 Inf
              ltac:(lia) ltac:(lia)) as [H1 H2].
  fold (train validate true patience n_epochs) in H1, H2. fold st in H1, H2.
  split; [split; [|exact H1]|exact H2].
  destruct (train_final validate patience n_epochs) as [Hc _]. fold st in Hc.
  rewrite Hc. destruct (epochs_run st) as [|k]; [simpl; lia|].
  destruct (after_epochs_invariant validate (S k) ltac:(lia)) as [best [_ [E _]]].
  rewrite E. simpl. lia.
Qed.

Lemma train_counter_at_most_patience_witness :
  n_no_improvement
    (train (loss_sequence [frac 5 10; frac 3 10; frac 4 10; frac 6 10]) true 2 30)
  = 2.
Proof.
  apply (proj2 (train_counter_at_most_patience
                  (loss_sequence [frac 5 10; frac 3 10; frac 4 10; frac 6 10]) 2 30
                  ltac:(lia))).
  vm_compute. lia.
Defined.

Lemma after_epochs_nonincreasing (validate : nat -> Qc) :
  (forall j, (validate (S j) <= validate j)%Qc) ->
  forall k, after_epochs validate (S k) = (0, Retained (validate k)).
Proof.
  intros Hmono. induction k as [|k IH]; [reflexivity|].
  change (after_epochs validate (S (S k)))
    with (early_stopping_update (validate (S k))
            (fst (after_epochs validate (S k))) (snd (after_epochs validate (S k)))).
  rewrite IH. unfold early_stopping_update, loss_gt. cbn [fst snd].
  rewrite bool_decide_eq_false_2; [reflexivity|]. apply Qcle_not_lt, Hmono.
Qed.

(** X5: with early stopping and a patience of at least 1, validation losses
    that never increase from one epoch to the next (they may stay equal)
    never stop training early: all [n_epochs] epochs run and the counter ends
    at 0. *)
Theorem train_nonincreasing_runs_all (validate : nat -> Qc) (patience n_epochs : Z) :
  1 <= patience ->
  (forall j, (validate (S j) <= validate j)%Qc) ->
  epochs_run (train validate true patience n_epochs) = Z.to_nat n_epochs /\
  n_no_improvement (train validate true patience n_epochs) = 0.
Proof.
  intros Hp Hmono.
  assert (He : epochs_run (train validate true patience n_epochs) = Z.to_nat n_epochs).
  { unfold train.
    change 0 with (fst (after_epochs validate 0)) at 1.
    change Inf with (snd (after_epochs validate 0)).
    rewrite epoch_loop_exhausts; [reflexivity|].
    intros j Hj. destruct j as [|j]; [lia|].
    rewrite after_epochs_nonincreasing by assumption. simpl. lia. }
  split; [exact He|].
  destruct (train_final validate patience n_epochs) as [Hc _].
  rewrite Hc, He. destruct (Z.to_nat n_epochs) as [|k]; [reflexivity|].
  now rewrite after_epochs_nonincreasing.
Qed.

Lemma train_nonincreasing_runs_all_witness :
  epochs_run (train (fun _ => frac 4 10) true 1 30) = 30%nat.
Proof.
  apply (proj1 (train_nonincreasing_runs_all (fun _ => frac 4 10) 1 30 ltac:(lia)
                  (fun _ => Qcle_refl _))).
Defined.

Lemma increasing_above_first (validate : nat -> Qc) :
  (forall j, (validate j < validate (S j))%Qc) ->
  forall k, (validate 0%nat < validate (S k))%Qc.
Proof.
  intros Hinc. induction k as [|k IH]; [apply Hinc|].
  apply Qclt_trans with (validate (S k)); [exact IH | apply Hinc].
Qed.

Lemma after_epochs_increasing (validate : nat -> Qc) :
  (forall j, (validate j < validate (S j))%Qc) ->
  forall k, after_epochs validate (S k) = (Z.of_nat k, Retained (validate 0%nat)).
Proof.
  intros Hinc. induction k as [|k IH]; [reflexivity|].
  change (after_epochs validate (S (S k)))
    with (early_stopping_update (validate (S k))
            (fst (after_epochs validate (S k))) (snd (after_epochs validate (S k)))).
  rewrite IH. unfold early_stopping_update, loss_gt. cbn [fst snd].
  rewrite bool_decide_eq_true_2 by now apply increasing_above_first.
  f_equal. lia.
Qed.

(** X6: with early stopping and a patience of at least 1, validation losses
    that strictly increase at every epoch stop training after
    [patience + 1] epochs (if that many were allowed), with the first epoch's
    loss retained. *)
Theorem train_increasing_stops (validate : nat -> Qc) (patience n_epochs : Z) :
  1 <= patience -> patience + 1 <= n_epochs ->
  (forall j, (validate j < validate (S j))%Qc) ->
  train validate true patience n_epochs
  = {| epochs_run := Z.to_nat patience + 1;
       n_no_improvement := patience;
       prev_val_loss := Retained (validate 0%nat) |}.
Proof.
  intros Hp Hn Hinc. unfold train.
  change 0 with (fst (after_epochs validate 0)) at 1.
  change Inf with (snd (after_epochs validate 0)).
  rewrite (epoch_loop_stops validate patience _ 0 (Z.to_nat patience + 1)).
  - replace (Z.to_nat patience + 1)%nat with (S (Z.to_nat patience)) by lia.
    rewrite after_epochs_increasing by assumption. simpl. f_equal. lia.
  - lia.
  - intros j Hj. destruct j as [|j]; [lia|].
    rewrite after_epochs_increasing by assumption. simpl. lia.
  - replace (Z.to_nat patience + 1)%nat with (S (Z.to_nat patience)) by lia.
    rewrite after_epochs_increasing by assumption. simpl. lia.
Qed.

Lemma train_increasing_stops_witness :
  train (fun e => Qc_of_nat e) true 2 30
  = {| epochs_run := 3; n_no_improvement := 2; prev_val_loss := Retained (Qc_of_nat 0) |}.
Proof.
  apply (train_increasing_stops (fun e => Qc_of_nat e) 2 30 ltac:(lia) ltac:(lia)).
  intros j. unfold Qc_of_nat, Qclt. simpl. rewrite !Qred_correct.
  unfold Qlt. simpl. lia.
Defined.

(** ** MLPModule.__init__ with hidden layers *)

Lemma range_from_one (n : nat) :
  range 1 (Z.of_nat (S n)) 1 = Ok (map Z.of_nat (seq 1 n)).
Proof.
  assert (L : range_length 1 (Z.of_nat (S n)) 1 = Z.of_nat n).
  { unfold range_length. change (0 <? 1) with true. cbv iota.
    destruct (1 <? Z.of_nat (S n)) eqn:E.
    - rewrite Z.div_1_r. lia.
    - apply Z.ltb_ge in E. lia. }
  unfold range. change (1 =? 0) with false. cbv iota.
  rewrite L, Nat2Z.id. f_equal.
  rewrite <- seq_shift, map_map. apply map_ext. intros k. lia.
Qed.

Lemma getitem_last {A : Type} (l : list A) (x d : A) :
  getitem (l ++ [x]) (-1) = Ok x.
Proof.
  unfold getitem, len. change (-1 <? 0) with true. cbv iota.
  rewrite length_app. simpl length.
  replace (-1 + Z.of_nat (length l + 1)) with (Z.of_nat (length l)) by lia.
  assert (H0 : (0 <=? Z.of_nat (length l)) = true) by (apply Z.leb_le; lia).
  assert (H1 : (Z.of_nat (length l) <? Z.of_nat (length l + 1)) = true)
    by (apply Z.ltb_lt; lia).
  rewrite H0, H1, Nat2Z.id. simpl. now rewrite list_lookup_middle.
Qed.

Lemma nn_Linear_Ok (i o : Z) : 0 <= i -> 0 <= o -> nn_Linear i o = Ok (Linear i o).
Proof.
  intros Hi Ho. unfold nn_Linear.
  assert (E1 : (i <? 0) = false) by (apply Z.ltb_ge; lia).
  assert (E2 : (o <? 0) = false) by (apply Z.ltb_ge; lia).
  now rewrite E1, E2.
Qed.

Lemma nn_BatchNorm1d_Ok (n : Z) : 0 <= n -> nn_BatchNorm1d n = Ok (BatchNorm1d n).
Proof.
  intros Hn. unfold nn_BatchNorm1d.
  assert (E : (n <? 0) = false) by (apply Z.ltb_ge; lia).
  now rewrite E.
Qed.

Lemma nn_Dropout_Ok (p : Qc) : (0 <= p)%Qc -> (p <= 1)%Qc -> nn_Dropout p = Ok (Dropout p).
Proof.
  intros H0 H1. unfold nn_Dropout.
  rewrite (bool_decide_eq_false_2 (p < 0)%Qc) by now apply Qcle_not_lt.
  rewrite (bool_decide_eq_false_2 (1 < p)%Qc) by now apply Qcle_not_lt.
  reflexivity.
Qed.

Section HiddenLoop.

Variables (hidden_sizes : list Z) (dropout_rate : Qc) (do_batch_norm : bool).
Hypothesis sizes_nonneg : Forall (fun h => 0 <= h) hidden_sizes.
Hypothesis rate_nonneg : (0 <= dropout_rate)%Qc.
Hypothesis rate_le_one : (dropout_rate <= 1)%Qc.

Local Abbreviation loop_body :=
  (fun (layers : list layer) (i : Z) =>
     let! hprev := getitem hidden_sizes (i - 1) in
     let! hi := getitem hidden_sizes i in
     let! linear := nn_Linear hprev hi in
     let layers := layers ++ [linear] in
     let! layers :=
       (if do_batch_norm
        then let! hi := getitem hidden_sizes i in
             let! norm := nn_BatchNorm1d hi in
             Ok (layers ++ [norm])
        else Ok layers) in
     let layers := layers ++ [ReLU] in
     let! dropout := nn_Dropout dropout_rate in
     Ok (layers ++ [dropout])).

Lemma hidden_loop (rest pre : list Z) (x : Z) (acc : list layer) :
  hidden_sizes = pre ++ x :: rest ->
  for_each loop_body (map Z.of_nat (seq (S (length pre)) (length rest))) acc
  = Ok (acc ++ concat (map (fun io : Z * Z =>
                              hidden_block (fst io) (snd io) do_batch_norm dropout_rate)
                           (combine (x :: rest) rest))).
Proof.
  revert pre x acc. induction rest as [|y rest IH]; intros pre x acc E.
  - simpl. now rewrite app_nil_r.
  - cbn [length seq map for_each].
    replace (Z.of_nat (S (length pre)) - 1) with (Z.of_nat (length pre)) by lia.
    assert (Lx : hidden_sizes !! length pre = Some x).
    { rewrite E. apply list_lookup_middle. reflexivity. }
    assert (Ly : hidden_sizes !! S (length pre) = Some y).
    { rewrite E. change (pre ++ x :: y :: rest) with (pre ++ [x] ++ y :: rest).
      rewrite app_assoc. apply list_lookup_middle.
      rewrite length_app. simpl. lia. }
    pose proof (Forall_lookup_1 _ _ _ _ sizes_nonneg Lx) as Px.
    pose proof (Forall_lookup_1 _ _ _ _ sizes_nonneg Ly) as Py.
    apply getitem_Ok in Lx, Ly. rewrite Lx, Ly. cbn [bind].
    rewrite (nn_Linear_Ok x y Px Py). cbn [bind].
    rewrite (nn_Dropout_Ok dropout_rate rate_nonneg rate_le_one).
    specialize (IH (pre ++ [x]) y).
    rewrite length_app in IH. simpl length in IH.
    replace (length pre + 1)%nat with (S (length pre)) in IH by lia.
    rewrite (nn_Dropout_Ok dropout_rate rate_nonneg rate_le_one) in IH.
    assert (HE : hidden_sizes = (pre ++ [x]) ++ y :: rest)
      by (rewrite E, <- app_assoc; reflexivity).
    destruct do_batch_norm; cbn [bind].
    + rewrite (nn_BatchNorm1d_Ok y Py). cbn [bind].
      etransitivity; [exact (IH _ HE)|].
      f_equal. cbn [combine map concat fst snd]. unfold hidden_block.
      simpl. rewrite <- !app_assoc. reflexivity.
    + etransitivity; [exact (IH _ HE)|].
      f_equal. cbn [combine map concat fst snd]. unfold hidden_block.
      simpl. rewrite <- !app_assoc. reflexivity.
Qed.

End HiddenLoop.

(** The stack built for a non-empty list of hidden sizes, when no size is
    negative and the dropout rate is a probability. *)
Lemma MLPModule_init_hidden (h : Z) (hs : list Z) (n m : Z) (d : Qc) (b : bool) :
  0 <= n -> Forall (fun h => 0 <= h) (h :: hs) -> 0 <= m ->
  (0 <= d)%Qc -> (d <= 1)%Qc ->
  MLPModule_init (h :: hs) n d m b
  = Ok (concat (map (fun io : Z * Z => hidden_block (fst io) (snd io) b d)
                    (combine (n :: h :: hs) (h :: hs)))
        ++ [Linear (List.last (h :: hs) h) m]).
Proof.
  intros Hn Hs Hm Hd0 Hd1. unfold MLPModule_init.
  assert (Hlen : (0 <? len (h :: hs)) = true) by (apply Z.ltb_lt; unfold len; simpl; lia).
  assert (Hh : 0 <= h) by (apply (Forall_lookup_1 _ _ 0%nat h Hs); reflexivity).
  rewrite Hlen. change (getitem (h :: hs) 0) with (Ok h). cbn [bind].
  rewrite (nn_Linear_Ok n h Hn Hh).
  unfold len at 1. change (length (h :: hs)) with (S (length hs)).
  rewrite range_from_one.
  destruct (exists_last (l := h :: hs) ltac:(discriminate)) as [l' [z E]].
  assert (Hg : getitem (h :: hs) (-1) = Ok z) by (rewrite E; apply getitem_last; exact z).
  assert (Hl : List.last (h :: hs) h = z) by (rewrite E; apply last_last).
  assert (Hz : 0 <= z).
  { rewrite E in Hs. apply Forall_app in Hs. destruct Hs as [_ Hs].
    apply (Forall_lookup_1 _ _ 0%nat z Hs). reflexivity. }
  pose proof (hidden_loop (h :: hs) d b Hs Hd0 Hd1 hs [] h) as Hloop.
  assert (Hfirst :
    (let! linear := Ok (Linear n h) in
     let layers := [] ++ [linear] in
     let! layers :=
       (if b
        then let! h0 := Ok h in
             let! norm := nn_BatchNorm1d h0 in
             Ok (layers ++ [norm])
        else Ok layers) in
     let layers := layers ++ [ReLU] in
     let! dropout := nn_Dropout d in
     Ok (layers ++ [dropout]))
    = Ok (hidden_block n h b d)).
  { unfold hidden_block. destruct b; cbn [bind].
    - rewrite (nn_BatchNorm1d_Ok h Hh), (nn_Dropout_Ok d Hd0 Hd1). reflexivity.
    - rewrite (nn_Dropout_Ok d Hd0 Hd1). reflexivity. }
  etransitivity.
  { apply (f_equal (fun first =>
             let! layers := first in
             let! idx := Ok (map Z.of_nat (seq 1 (length hs))) in
             let! layers := for_each _ idx layers in
             let! hlast := getitem (h :: hs) (-1) in
             let! linear := nn_Linear hlast m in
             Ok (layers ++ [linear])) Hfirst). }
  cbn [bind].
  etransitivity.
  { apply (f_equal (fun looped =>
             let! layers := looped in
             let! hlast := getitem (h :: hs) (-1) in
             let! linear := nn_Linear hlast m in
             Ok (layers ++ [linear])) (Hloop _ eq_refl)). }
  cbn [bind]. rewrite Hg, Hl. cbn [bind]. rewrite (nn_Linear_Ok z m Hz Hm).
  cbn [bind]. reflexivity.
Qed.

Lemma linear_dims_app (a b : list layer) :
  linear_dims (a ++ b) = linear_dims a ++ linear_dims b.
Proof.
  induction a as [|l a IH]; [reflexivity|].
  destruct l; simpl; now rewrite IH.
Qed.

Lemma linear_dims_blocks (pairs : list (Z * Z)) (b : bool) (d : Qc) :
  linear_dims (concat (map (fun io : Z * Z => hidden_block (fst io) (snd io) b d) pairs))
  = pairs.
Proof.
  induction pairs as [|[i o] pairs IH]; [reflexivity|].
  cbn [map concat]. rewrite linear_dims_app, IH.
  unfold hidden_block. destruct b; reflexivity.
Qed.

Lemma length_blocks (pairs : list (Z * Z)) (b : bool) (d : Qc) :
  length (concat (map (fun io : Z * Z => hidden_block (fst io) (snd io) b d) pairs))
  = ((if b then 4 else 3) * length pairs)%nat.
Proof.
  induction pairs as [|[i o] pairs IH]; [destruct b; reflexivity|].
  cbn [map concat]. rewrite length_app, IH.
  unfold hidden_block. destruct b; simpl; lia.
Qed.

Lemma combine_shifted (l : list Z) (a m d0 : Z) :
  l <> [] ->
  combine (a :: l) (l ++ [m]) = combine (a :: l) l ++ [(List.last l d0, m)].
Proof.
  revert a. induction l as [|x l IH]; intros a Hne; [congruence|].
  destruct l as [|y l]; [reflexivity|].
  change (combine (a :: x :: y :: l) ((x :: y :: l) ++ [m]))
    with ((a, x) :: combine (x :: y :: l) ((y :: l) ++ [m])).
  rewrite IH by discriminate. reflexivity.
Qed.

(** X7: for every non-empty list of hidden sizes, when no size (input, hidden
    or output) is negative and the dropout rate lies in [0, 1], the
    constructor succeeds and its linear layers chain: the first maps
    [input_size] to the first hidden size, each next one maps a hidden size to
    the following one, and the last maps the last hidden size to
    [output_size]. *)
Theorem MLPModule_init_linear_chain (hidden_sizes : list Z) (input_size : Z)
    (dropout_rate : Qc) (output_size : Z) (do_batch_norm : bool) :
  hidden_sizes <> [] ->
  0 <= input_size -> Forall (fun h => 0 <= h) hidden_sizes -> 0 <= output_size ->
  (0 <= dropout_rate)%Qc -> (dropout_rate <= 1)%Qc ->
  exists layers,
    MLPModule_init hidden_sizes input_size dropout_rate output_size do_batch_norm
    = Ok layers /\
    linear_dims layers
    = combine (input_size :: hidden_sizes) (hidden_sizes ++ [output_size]).
Proof.
  intros Hne Hi Hs Ho Hd0 Hd1. destruct hidden_sizes as [|h hs]; [congruence|].
  eexists. split; [now apply MLPModule_init_hidden|].
  rewrite linear_dims_app, linear_dims_blocks.
  now rewrite (combine_shifted (h :: hs) input_size output_size h).
Qed.

Lemma MLPModule_init_linear_chain_witness :
  exists layers,
    MLPModule_init [4; 5] 3 (frac 1 2) 1 true = Ok layers /\
    linear_dims layers = [(3, 4); (4, 5); (5, 1)].
Proof.
  apply (MLPModule_init_linear_chain [4; 5] 3 (frac 1 2) 1 true).
  - discriminate.
  - lia.
  - repeat (apply List.Forall_cons; [lia|]). apply List.Forall_nil.
  - lia.
  - discriminate.
  - discriminate.
Defined.

(** X8: for every non-empty list of hidden sizes, when no size is negative and
    the dropout rate lies in [0, 1], the stack is, for each hidden size in
    turn, a linear layer into it, a batch normalisation of that width when
    [do_batch_norm] is set, a ReLU and a dropout of rate [dropout_rate],
    followed by the output layer alone: 3 (or 4 with batch normalisation)
    modules per hidden size, plus one. *)
Theorem MLPModule_init_blocks (hidden_sizes : list Z) (input_size : Z)
    (dropout_rate : Qc) (output_size : Z) (do_batch_norm : bool) :
  hidden_sizes <> [] ->
  0 <= input_size -> Forall (fun h => 0 <= h) hidden_sizes -> 0 <= output_size ->
  (0 <= dropout_rate)%Qc -> (dropout_rate <= 1)%Qc ->
  exists layers,
    MLPModule_init hidden_sizes input_size dropout_rate output_size do_batch_norm
    = Ok layers /\
    layers
    = concat (map (fun io : Z * Z =>
                     [Linear (fst io) (snd io)]
                     ++ (if do_batch_norm then [BatchNorm1d (snd io)] else [])
                     ++ [ReLU; Dropout dropout_rate])
                  (combine (input_size :: hidden_sizes) hidden_sizes))
      ++ [Linear (List.last hidden_sizes 0) output_size] /\
    length layers
    = ((if do_batch_norm then 4 else 3) * length hidden_sizes + 1)%nat.
Proof.
  intros Hne Hi Hs Ho Hd0 Hd1. destruct hidden_sizes as [|h hs]; [congruence|].
  eexists. split; [now apply MLPModule_init_hidden|]. split.
  - f_equal. f_equal. f_equal.
    destruct (exists_last (l := h :: hs) ltac:(discriminate)) as [l' [z E]].
    rewrite E, !last_last. reflexivity.
  - rewrite length_app, length_blocks, length_combine. simpl length. lia.
Qed.

Lemma MLPModule_init_blocks_witness :
  exists layers,
    MLPModule_init [4; 5] 3 (frac 1 2) 1 false = Ok layers /\
    length layers = 7%nat.
Proof.
  destruct (MLPModule_init_blocks [4; 5] 3 (frac 1 2) 1 false
              ltac:(discriminate) ltac:(lia)
              ltac:(repeat (apply List.Forall_cons; [lia|]); apply List.Forall_nil)
              ltac:(lia) ltac:(discriminate) ltac:(discriminate))
    as [layers [H [_ Hl]]].
  exists layers. split; [exact H | exact Hl].
Defined.

(** The constructors' own refusals come first in their block: a negative
    input size, or a dropout rate outside [0, 1] after a well-sized first
    block, ends the construction. *)
Example MLPModule_init_refusals :
  MLPModule_init [4] (-1) (frac 1 2) 1 false = Raise RuntimeError /\
  MLPModule_init [-1] 3 (frac 1 2) 1 false = Raise RuntimeError /\
  MLPModule_init [4] 3 (frac 3 2) 1 false = Raise ValueError.
Proof. repeat split. Qed.

(** ** SimpleDataset *)

(** X9: the length of a dataset is the number of rows of [X] alone. When [y]
    has as many entries, every index from 0 below the length yields the row
    and the target at that index; when [y] is shorter, the index [len(y)] is
    below the length of the dataset and yet raises [IndexError]. *)
Theorem SimpleDataset_getitem_in_range (self : SimpleDataset) :
  (length (ds_y self) = length (ds_X self) ->
   forall i : nat,
     Z.of_nat i < SimpleDataset_len self ->
     exists x t,
       SimpleDataset_getitem self (Z.of_nat i) = Ok (x, t) /\
       ds_X self !! i = Some x /\ ds_y self !! i = Some t) /\
  ((length (ds_y self) < length (ds_X self))%nat ->
   0 <= len (ds_y self) < SimpleDataset_len self /\
   SimpleDataset_getitem self (len (ds_y self)) = Raise IndexError).
Proof.
  unfold SimpleDataset_len, SimpleDataset_getitem, len. split.
  - intros Hlen i Hi.
    destruct (lookup_lt_is_Some_2 (ds_X self) i ltac:(lia)) as [x Hx].
    destruct (lookup_lt_is_Some_2 (ds_y self) i ltac:(lia)) as [t Ht].
    exists x, t. apply getitem_Ok in Hx as Gx. apply getitem_Ok in Ht as Gt.
    rewrite Gx, Gt. auto.
  - intros Hlt. split; [lia|].
    destruct (lookup_lt_is_Some_2 (ds_X self) (length (ds_y self)) Hlt) as [x Hx].
    apply getitem_Ok in Hx. rewrite Hx. cbn [bind].
    unfold getitem, len.
    assert (H0 : (Z.of_nat (length (ds_y self)) <? 0) = false) by (apply Z.ltb_ge; lia).
    rewrite H0, Z.ltb_irrefl, andb_false_r. reflexivity.
Qed.

Lemma SimpleDataset_getitem_in_range_witness :
  SimpleDataset_getitem
    {| ds_X := [[1; 0]%Qc; [0; 1]%Qc]; ds_y := [1%Qc] |} 1
  = Raise IndexError.
Proof.
  apply (proj2 (SimpleDataset_getitem_in_range
                  {| ds_X := [[1; 0]%Qc; [0; 1]%Qc]; ds_y := [1%Qc] |})).
  simpl. lia.
Defined.

(** ** ResultContainer.add_results: what a call leaves alone *)

Section AddResultsFrame.

Variable entropy : array2 -> result (list Qc).
Variable platt_scale : list Qc -> list Qc -> option (list Qc) -> result (list Qc).

Lemma lookup_touch_ne {A : Type} (name key : string) (d : gmap string (list A)) :
  name <> key -> touch name d !! key = d !! key.
Proof. intros H. unfold touch. now rewrite lookup_insert_ne. Qed.

Lemma lookup_append_to_ne {A : Type} (name key : string) (x : A)
    (d : gmap string (list A)) :
  name <> key -> append_to name x d !! key = d !! key.
Proof. intros H. unfold append_to. now rewrite lookup_insert_ne. Qed.

(** X11: a call of [add_results] for one method name never changes what is
    stored under another name, whether it returns or raises. *)
Theorem add_results_other_names_untouched (self : ResultContainer) (y_pred : array2)
    (name : string) (y_pred_val : option array2) (y_val : option (list Qc))
    (calibrate : bool) (key : string) :
  name <> key ->
  let out := add_results entropy platt_scale self y_pred name y_pred_val y_val
               calibrate in
  uncertainties (fst out) !! key = uncertainties self !! key /\
  predictions (fst out) !! key = predictions self !! key.
Proof.
  intros Hne. unfold add_results.
  destruct calibrate; cbn [negb].
  - destruct (bind (column y_pred 1) _) as [c|e]; [|split; reflexivity].
    destruct (entropy y_pred) as [u|e]; cbn [fst uncertainties predictions].
    + now rewrite !lookup_append_to_ne, lookup_touch_ne.
    + now rewrite lookup_touch_ne.
  - destruct (entropy y_pred) as [u|e]; cbn [fst uncertainties predictions].
    + destruct (column y_pred 1) as [p|e]; cbn [fst uncertainties predictions].
      * now rewrite !lookup_append_to_ne, !lookup_touch_ne.
      * now rewrite lookup_append_to_ne, !lookup_touch_ne.
    + now rewrite lookup_touch_ne.
Qed.

(** X12: with [calibrate=True] and the validation predictions left at their
    default [None], the call raises and the container is left exactly as it
    was. *)
Theorem add_results_calibrate_needs_validation (self : ResultContainer)
    (y_pred : array2) (name : string) (y_val : option (list Qc)) :
  exists e,
    add_results entropy platt_scale self y_pred name None y_val true = (self, Raise e) /\
    (e = TypeError \/ e = IndexError).
Proof.
  unfold add_results. cbn [negb].
  destruct (column y_pred 1) as [p|e] eqn:E; cbn [bind].
  - exists TypeError. auto.
  - exists e. split; [reflexivity|]. right.
    unfold column in E. destruct (_ && _); [|congruence].
    assert (G : forall r : list Qc, forall e', getitem r 1 = Raise e' -> e' = IndexError).
    { intros r e'. unfold getitem. change (1 <? 0) with false. cbv iota.
      destruct (_ && _); [|congruence]. destruct (r !! Z.to_nat 1); congruence. }
    revert E. generalize (rows y_pred). intros l. revert e.
    induction l as [|r l IH]; intros e; cbn [map_each]; [discriminate|].
    destruct (getitem r 1) as [x|e'] eqn:Er; cbn [bind].
    + destruct (map_each (fun r0 : list Qc => getitem r0 1) l) as [ys|e''] eqn:El;
        cbn [bind]; [discriminate|].
      intros [= <-]. now apply IH.
    + intros [= <-]. now apply (G r).
Qed.

(** The method names that have an entry after a sequence of calls. *)
Lemma add_all_keys (calls : list call_args) (self self' : ResultContainer)
    (key : string) :
  add_all entropy platt_scale self calls = (self', Ok tt) ->
  (is_Some (uncertainties self' !! key)
   <-> is_Some (uncertainties self !! key) \/ In key (map arg_name calls)) /\
  (is_Some (predictions self' !! key)
   <-> is_Some (predictions self !! key) \/ In key (map arg_name calls)).
Proof.
  revert self. induction calls as [|c calls IH]; intros self H; simpl in H.
  - injection H as <-. simpl. tauto.
  - destruct (add_results _ _ _ _ _ _ _ _) as [self1 [[]|e]] eqn:E.
    + apply add_results_Ok in E. destruct E as [u [p [_ [_ [Eu Ep]]]]].
      destruct (IH self1 H) as [Hu Hp]. rewrite Hu, Hp, Eu, Ep.
      unfold append_to. rewrite !lookup_insert. simpl.
      split; case_decide; subst; split; intros [?|?]; auto;
        try (left; eexists; reflexivity); try tauto;
        try (destruct H0 as [->|?]; tauto).
    + injection H as _ H. discriminate H.
Qed.

(** X13: after any sequence of calls on a fresh container that all return,
    the uncertainty and the prediction dictionaries have the same keys: the
    method names for which a call was made. *)
Theorem results_same_keys (calls : list call_args) (self' : ResultContainer)
    (key : string) :
  add_all entropy platt_scale ResultContainer_init calls = (self', Ok tt) ->
  (is_Some (uncertainties self' !! key) <-> In key (map arg_name calls)) /\
  (is_Some (predictions self' !! key) <-> In key (map arg_name calls)).
Proof.
  intros H. destruct (add_all_keys calls _ _ key H) as [Hu Hp].
  simpl in Hu, Hp. rewrite lookup_empty in Hu, Hp.
  rewrite Hu, Hp. split; split; auto; intros [[x Hx]|?]; [discriminate|assumption|discriminate|assumption].
Qed.

End AddResultsFrame.

Lemma add_results_other_names_untouched_witness :
  uncertainties
    (fst (add_results example_entropy example_platt_scale ResultContainer_init
            example_probabilities "mlp" None None false)) !! "knn"
  = uncertainties ResultContainer_init !! "knn".
Proof.
  apply (proj1 (add_results_other_names_untouched example_entropy example_platt_scale
                  ResultContainer_init example_probabilities "mlp" None None false
                  "knn" ltac:(discriminate))).
Defined.

Lemma results_same_keys_witness :
  is_Some (predictions
             (fst (add_all example_entropy example_platt_scale
                     ResultContainer_init example_calls)) !! "knn").
Proof.
  apply (proj2 (results_same_keys example_entropy example_platt_scale example_calls
                  (fst (add_all example_entropy example_platt_scale
                          ResultContainer_init example_calls))
                  "knn" eq_refl)).
  simpl. auto.
Defined.

(** ** get_incremental_loss: inputs it refuses *)

Lemma first_seed_raises (y_test y_pred uncertainty : list (list Qc)) (m : metric)
    (ms : list metric) (min_size step_size : Z) (e : exn) :
  uncertainty <> [] ->
  seed_run y_test y_pred uncertainty m min_size step_size 0 = Raise e ->
  get_incremental_loss y_test y_pred uncertainty (m :: ms) min_size step_size = Raise e.
Proof.
  intros Hne H. destruct uncertainty as [|u us]; [congruence|].
  unfold get_incremental_loss. cbn [for_each]. unfold metric_run at 1.
  unfold len at 1. rewrite range_seeds.
  change (length (u :: us)) with (S (length us)).
  cbn [seq map for_each bind]. change (Z.of_nat 0) with 0.
  rewrite H. reflexivity.
Qed.

(** X14: with at least one metric and no seed at all (an empty list of
    uncertainty arrays), [get_incremental_loss] raises [TypeError], whatever
    the other arguments are. *)
Theorem get_incremental_loss_no_seed (y_test y_pred : list (list Qc)) (m : metric)
    (ms : list metric) (min_size step_size : Z) :
  get_incremental_loss y_test y_pred [] (m :: ms) min_size step_size = Raise TypeError.
Proof. reflexivity. Qed.

(** X15: with at least one metric, a step size of 0 makes
    [get_incremental_loss] raise [ValueError] as soon as the first seed's
    arrays are there and of one length. *)
Theorem get_incremental_loss_zero_step (y_test y_pred uncertainty : list (list Qc))
    (m : metric) (ms : list metric) (min_size : Z) (p u l : list Qc) :
  y_pred !! 0%nat = Some p -> uncertainty !! 0%nat = Some u -> y_test !! 0%nat = Some l ->
  length u = length p -> length l = length p ->
  get_incremental_loss y_test y_pred uncertainty (m :: ms) min_size 0 = Raise ValueError.
Proof.
  intros Hp Hu Hl Eu El. apply first_seed_raises.
  - intros ->. discriminate Hu.
  - unfold seed_run.
    apply (getitem_Ok _ 0) in Hp, Hu, Hl. change (Z.of_nat 0) with 0 in Hp, Hu, Hl.
    rewrite Hp, Hu, Hl. cbn [bind].
    unfold DataFrame. apply Nat.eqb_eq in Eu, El. rewrite Eu, El. reflexivity.
Qed.

Lemma get_incremental_loss_zero_step_witness :
  get_incremental_loss [[1; 0]%Qc] [[frac 9 10; frac 1 10]] [[frac 1 10; frac 2 10]]
    [accuracy] 1 0 = Raise ValueError.
Proof.
  apply (get_incremental_loss_zero_step
           [[1; 0]%Qc] [[frac 9 10; frac 1 10]] [[frac 1 10; frac 2 10]]
           accuracy [] 1 [frac 9 10; frac 1 10] [frac 1 10; frac 2 10] [1; 0]%Qc);
    reflexivity.
Defined.

(** X16: with at least one metric, a first seed whose uncertainty array or
    label array has not the length of its prediction array makes
    [get_incremental_loss] raise [ValueError]. *)
Theorem get_incremental_loss_length_mismatch (y_test y_pred uncertainty : list (list Qc))
    (m : metric) (ms : list metric) (min_size step_size : Z) (p u l : list Qc) :
  y_pred !! 0%nat = Some p -> uncertainty !! 0%nat = Some u -> y_test !! 0%nat = Some l ->
  length u <> length p \/ length l <> length p ->
  get_incremental_loss y_test y_pred uncertainty (m :: ms) min_size step_size
  = Raise ValueError.
Proof.
  intros Hp Hu Hl Hne. apply first_seed_raises.
  - intros ->. discriminate Hu.
  - unfold seed_run.
    apply (getitem_Ok _ 0) in Hp, Hu, Hl. change (Z.of_nat 0) with 0 in Hp, Hu, Hl.
    rewrite Hp, Hu, Hl. cbn [bind]. unfold DataFrame.
    destruct Hne as [H|H]; apply Nat.eqb_neq in H; rewrite H;
      [reflexivity | rewrite andb_false_r; reflexivity].
Qed.

Lemma get_incremental_loss_length_mismatch_witness :
  get_incremental_loss [[1; 0]%Qc] [[frac 9 10; frac 1 10]] [[frac 1 10]]
    [accuracy] 1 1 = Raise ValueError.
Proof.
  apply (get_incremental_loss_length_mismatch
           [[1; 0]%Qc] [[frac 9 10; frac 1 10]] [[frac 1 10]]
           accuracy [] 1 1 [frac 9 10; frac 1 10] [frac 1 10] [1; 0]%Qc);
    try reflexivity.
  left. simpl. lia.
Defined.

(** ** get_incremental_loss: what a returned result implies *)

Lemma range_Ok_nonzero (start stop step : Z) (l : list Z) :
  range start stop step = Ok l -> step <> 0.
Proof.
  unfold range. destruct (step =? 0) eqn:E; [discriminate|].
  intros _. now apply Z.eqb_neq.
Qed.

Lemma range_same_length (start stop stop' step : Z) (l l' : list Z) :
  range start stop step = Ok l -> range start stop' step = Ok l' ->
  length l = length l' -> l = l'.
Proof.
  unfold range. destruct (step =? 0); [discriminate|].
  intros [= <-] [= <-]. rewrite !length_map, !length_seq. now intros ->.
Qed.

Lemma for_each_In {A S : Type} (body : S -> A -> result S) (l : list A) (s s' : S)
    (x : A) :
  for_each body l s = Ok s' -> In x l -> exists s0 s1, body s0 x = Ok s1.
Proof.
  revert s. induction l as [|y l IH]; intros s H Hin; [destruct Hin|].
  simpl in H. apply bind_Ok in H. destruct H as [s1 [H1 H]].
  destruct Hin as [->|Hin]; [eauto | eapply IH; eauto].
Qed.

Section ReturnedResult.

Variables y_test y_pred uncertainty : list (list Qc).
Variables min_size step_size : Z.

Lemma seed_run_shape (m : metric) (n : nat) (r : list spec_float * list row) :
  seed_run y_test y_pred uncertainty m min_size step_size (Z.of_nat n) = Ok r ->
  exists p u l sizes,
    y_pred !! n = Some p /\ uncertainty !! n = Some u /\ y_test !! n = Some l /\
    length p = length u /\ length l = length u /\
    len (snd r) = len u /\
    range min_size (len u) step_size = Ok sizes /\
    length (fst r) = length sizes.
Proof.
  intros H. apply seed_run_Ok in H.
  destruct H as [p [u [l [df [Hp [Hu [Hl [Hdf [Hs Hsc]]]]]]]]].
  apply DataFrame_Ok in Hdf. destruct Hdf as [Eu [El [Ed _]]].
  assert (Hlen : len (sort_values df) = len u).
  { unfold len. now rewrite sort_values_length, Ed, Eu. }
  unfold incremental_scores in Hsc. apply bind_Ok in Hsc.
  destruct Hsc as [sizes [Hr Hsc]]. apply map_each_Ok in Hsc.
  apply Forall2_length in Hsc. rewrite Hlen in Hr.
  exists p, u, l, sizes. rewrite Hs, Hlen.
  repeat split; try assumption; lia.
Qed.

(** The per-seed facts behind one successful iteration over a metric. *)
Lemma metric_run_seeds (st st' : loss_state) (m : metric) :
  metric_run y_test y_pred uncertainty min_size step_size st m = Ok st' ->
  exists (positions : list Z) (means stds : list spec_float),
    uncertainty <> [] /\
    st' = {| xs := <[metric_name m := positions]> (xs st);
             score := <[metric_name m := means]> (score st);
             score_std := <[metric_name m := stds]> (score_std st);
             sorted_df := sorted_df st' |} /\
    length means = length positions /\ length stds = length positions /\
    forall n u, uncertainty !! n = Some u ->
      range min_size (len u) step_size = Ok positions /\
      exists p l, y_pred !! n = Some p /\ y_test !! n = Some l /\
                  length p = length u /\ length l = length u.
Proof.
  intros H. apply metric_run_Ok in H.
  destruct H as [rs [means [stds [r_last [positions [HF [Hm [Hsd [L [Hr ->]]]]]]]]]].
  pose proof (Forall2_length _ _ _ HF) as Hlen.
  rewrite length_map, length_seq in Hlen.
  apply reduce_axis0_Ok in Hm. destruct Hm as [r0 [rest [Hrows [Hall ->]]]].
  apply reduce_axis0_Ok in Hsd. destruct Hsd as [r0' [rest' [Hrows' [_ ->]]]].
  assert (r0' = r0) by congruence. subst r0'. clear Hrows' rest'.
  assert (Hrun : forall n r, rs !! n = Some r ->
            seed_run y_test y_pred uncertainty m min_size step_size (Z.of_nat n) = Ok r
            /\ length (fst r) = length r0).
  { intros n r Hn. split.
    - destruct (Forall2_lookup_r _ _ _ _ _ HF Hn) as [x [Hx Hrun]].
      rewrite map_lookup in Hx.
      assert (Hlt : (n < length uncertainty)%nat) by (apply lookup_lt_Some in Hn; lia).
      rewrite lookup_seq_lt in Hx by assumption. injection Hx as <-. exact Hrun.
    - apply (Forall_lookup_1 _ _ n _ Hall). rewrite map_lookup, Hn. reflexivity. }
  rewrite last_lookup in L. destruct (Hrun _ _ L) as [Hlast Hlast_len].
  apply seed_run_shape in Hlast.
  destruct Hlast as [_ [ul [_ [sl [_ [_ [_ [_ [_ [Hll [Hrl Hsl]]]]]]]]]]].
  rewrite Hll in Hr. assert (sl = positions) by congruence. subst sl.
  exists positions, (map (fun j => mean (along_axis0 (map fst rs) j)) (seq 0 (length r0))),
    (map (fun j => std (along_axis0 (map fst rs) j)) (seq 0 (length r0))).
  split; [intros E; rewrite E in Hlen; destruct rs; [discriminate L|discriminate Hlen]|].
  split; [reflexivity|].
  split; [rewrite length_map, length_seq; lia|].
  split; [rewrite length_map, length_seq; lia|].
  intros n u Hu.
  destruct (lookup_lt_is_Some_2 rs n) as [r Hn].
  { apply lookup_lt_Some in Hu. lia. }
  destruct (Hrun _ _ Hn) as [Hs Hl]. apply seed_run_shape in Hs.
  destruct Hs as [p [u' [l [sizes [Hp [Hu' [Hl' [Ep [El [_ [Hrs Hss]]]]]]]]]]].
  assert (u' = u) by congruence. subst u'.
  split; [|exists p, l; auto].
  rewrite Hrs. f_equal.
  apply (range_same_length _ _ _ _ _ _ Hrs Hrl). lia.
Qed.

End ReturnedResult.

(** X17: when [get_incremental_loss] returns for at least one metric, its
    inputs were well formed: there is at least one seed, the step size is not
    0, and every seed that has an uncertainty array also has a prediction
    array and a label array, both of the same length as it. *)
Theorem get_incremental_loss_returns_only_on_aligned_input
    (y_test y_pred uncertainty : list (list Qc)) (m : metric) (ms : list metric)
    (min_size step_size : Z) (res : loss_state) :
  get_incremental_loss y_test y_pred uncertainty (m :: ms) min_size step_size = Ok res ->
  uncertainty <> [] /\ step_size <> 0 /\
  (length uncertainty <= length y_pred)%nat /\
  (length uncertainty <= length y_test)%nat /\
  forall n u, uncertainty !! n = Some u ->
    exists p l, y_pred !! n = Some p /\ y_test !! n = Some l /\
                length p = length u /\ length l = length u.
Proof.
  intros H. unfold get_incremental_loss in H. cbn [for_each] in H.
  apply bind_Ok in H. destruct H as [st1 [H1 _]].
  apply metric_run_seeds in H1.
  destruct H1 as [positions [means [stds [Hne [_ [_ [_ Hall]]]]]]].
  assert (Hseed : forall n, (n < length uncertainty)%nat ->
            (n < length y_pred)%nat /\ (n < length y_test)%nat /\ step_size <> 0).
  { intros n Hn. destruct (lookup_lt_is_Some_2 uncertainty n Hn) as [u Hu].
    destruct (Hall n u Hu) as [Hr [p [l [Hp [Hl _]]]]].
    apply lookup_lt_Some in Hp, Hl. apply range_Ok_nonzero in Hr. auto. }
  assert (H0 : (0 < length uncertainty)%nat).
  { destruct uncertainty; [congruence|simpl; lia]. }
  split; [exact Hne|]. split; [apply (Hseed 0%nat H0)|].
  split; [|split].
  - destruct (Hseed (length uncertainty - 1)%nat ltac:(lia)) as [H _]. lia.
  - destruct (Hseed (length uncertainty - 1)%nat ltac:(lia)) as [_ [H _]]. lia.
  - intros n u Hu. apply (Hall n u Hu).
Qed.

Lemma get_incremental_loss_returns_only_on_aligned_input_witness :
  exists res,
    get_incremental_loss
      [[1; 1; 0]%Qc; [1; 0; 0; 1]%Qc]
      [[frac 9 10; frac 8 10; frac 1 10]; [frac 9 10; frac 2 10; frac 1 10; frac 7 10]]
      [[frac 1 10; frac 2 10; frac 3 10]; [frac 1 10; frac 2 10; frac 3 10; frac 4 10]]
      [accuracy] 2 5 = Ok res /\
    (5 : Z) <> 0.
Proof.
  eexists. split; [reflexivity|].
  match goal with
  | |- _ =>
      exact (proj1 (proj2 (get_incremental_loss_returns_only_on_aligned_input
        [[1; 1; 0]%Qc; [1; 0; 0; 1]%Qc]
        [[frac 9 10; frac 8 10; frac 1 10]; [frac 9 10; frac 2 10; frac 1 10; frac 7 10]]
        [[frac 1 10; frac 2 10; frac 3 10]; [frac 1 10; frac 2 10; frac 3 10; frac 4 10]]
        accuracy [] 2 5 _ eq_refl)))
  end.
Defined.

(** X18: when [get_incremental_loss] returns, the x-positions stored for a
    metric are the subset sizes [range(min_size, n, step_size)] of every seed,
    [n] being that seed's number of points: seeds of different sizes are only
    accepted when they give the same subset sizes. *)
Theorem xs_are_every_seeds_sizes (y_test y_pred uncertainty : list (list Qc))
    (metrics : list metric) (min_size step_size : Z) (res : loss_state)
    (m : metric) (n : nat) (u : list Qc) :
  get_incremental_loss y_test y_pred uncertainty metrics min_size step_size = Ok res ->
  In m metrics ->
  uncertainty !! n = Some u ->
  exists positions,
    xs res !! metric_name m = Some positions /\
    range min_size (len u) step_size = Ok positions.
Proof.
  intros H Hin Hu. unfold get_incremental_loss in H.
  destruct (metrics_loop_xs _ _ _ _ _ _ _ _ m H Hin) as [ul [pos [Hul [Hr Hx]]]].
  exists pos. split; [exact Hx|].
  destruct (for_each_In _ _ _ _ m H Hin) as [s0 [s1 Hrun]].
  apply metric_run_seeds in Hrun.
  destruct Hrun as [positions [_ [_ [_ [_ [_ [_ Hall]]]]]]].
  destruct (Hall n u Hu) as [Hn _].
  rewrite last_lookup in Hul. destruct (Hall _ ul Hul) as [Hl _].
  congruence.
Qed.

Lemma xs_are_every_seeds_sizes_witness :
  exists res,
    get_incremental_loss
      [[1; 1; 0]%Qc; [1; 0; 0; 1]%Qc]
      [[frac 9 10; frac 8 10; frac 1 10]; [frac 9 10; frac 2 10; frac 1 10; frac 7 10]]
      [[frac 1 10; frac 2 10; frac 3 10]; [frac 1 10; frac 2 10; frac 3 10; frac 4 10]]
      [accuracy] 2 5 = Ok res /\
    exists positions,
      xs res !! "accuracy" = Some positions /\ range 2 3 5 = Ok positions.
Proof.
  eexists. split; [reflexivity|].
  match goal with
  | |- _ =>
      exact (xs_are_every_seeds_sizes
        [[1; 1; 0]%Qc; [1; 0; 0; 1]%Qc]
        [[frac 9 10; frac 8 10; frac 1 10]; [frac 9 10; frac 2 10; frac 1 10; frac 7 10]]
        [[frac 1 10; frac 2 10; frac 3 10]; [frac 1 10; frac 2 10; frac 3 10; frac 4 10]]
        [accuracy] 2 5 _ accuracy 0%nat [frac 1 10; frac 2 10; frac 3 10]
        eq_refl (or_introl eq_refl) eq_refl)
  end.
Defined.

(** X19: when [get_incremental_loss] returns, the three lists stored for a
    metric (the last one of its name) have one length: there is a mean score
    and a standard deviation for each x-position. *)
Theorem curves_index_aligned (y_test y_pred uncertainty : list (list Qc))
    (before after : list metric) (m : metric) (min_size step_size : Z)
    (res : loss_state) :
  get_incremental_loss y_test y_pred uncertainty (before ++ m :: after)
    min_size step_size = Ok res ->
  ~ In (metric_name m) (map metric_name after) ->
  exists positions means stds,
    xs res !! metric_name m = Some positions /\
    score res !! metric_name m = Some means /\
    score_std res !! metric_name m = Some stds /\
    length means = length positions /\ length stds = length positions.
Proof.
  intros H Hlast.
  assert (Hin : In m (before ++ m :: after)) by (apply in_elt).
  pose proof H as H'. unfold get_incremental_loss in H.
  destruct (metrics_loop_xs _ _ _ _ _ _ _ _ m H Hin) as [ul [pos [Hul [Hr Hx]]]].
  rewrite for_each_app in H.
  apply bind_Ok in H. destruct H as [st0 [_ H]]. cbn [for_each] in H.
  apply bind_Ok in H. destruct H as [st1 [H1 H]].
  destruct (metrics_loop_score_keep _ _ _ _ _ _ _ _ _ H Hlast) as [Hs Hd].
  apply metric_run_seeds in H1.
  destruct H1 as [positions [means [stds [_ [E [Lm [Ls Hall]]]]]]].
  rewrite E in Hs, Hd. cbn [score score_std] in Hs, Hd.
  rewrite lookup_insert_eq in Hs. rewrite lookup_insert_eq in Hd.
  rewrite last_lookup in Hul. destruct (Hall _ ul Hul) as [Hl _].
  assert (pos = positions) by congruence. subst pos.
  exists positions, means, stds. auto.
Qed.

Lemma curves_index_aligned_witness :
  exists res,
    get_incremental_loss
      [[1; 1; 0; 0; 1]%Qc]
      [[frac 9 10; frac 8 10; frac 1 10; frac 2 10; frac 7 10]]
      [[frac 1 10; frac 3 10; frac 2 10; frac 5 10; frac 4 10]]
      ([] ++ [accuracy]) 2 1 = Ok res /\
    exists positions means stds,
      xs res !! "accuracy" = Some positions /\
      score res !! "accuracy" = Some means /\
      score_std res !! "accuracy" = Some stds /\
      length means = length positions /\ length stds = length positions.
Proof.
  eexists. split; [reflexivity|].
  match goal with
  | |- _ =>
      exact (curves_index_aligned
               [[1; 1; 0; 0; 1]%Qc]
               [[frac 9 10; frac 8 10; frac 1 10; frac 2 10; frac 7 10]]
               [[frac 1 10; frac 3 10; frac 2 10; frac 5 10; frac 4 10]]
               [] [] accuracy 2 1 _ eq_refl (fun H : False => H))
  end.
Defined.

(** ** get_incremental_loss: seeds beyond the uncertainty list, ragged seeds *)

Lemma getitem_app_l {A : Type} (l extra : list A) (n : nat) :
  (n < length l)%nat -> getitem (l ++ extra) (Z.of_nat n) = getitem l (Z.of_nat n).
Proof.
  intros H. destruct (lookup_lt_is_Some_2 l n H) as [x Hx].
  rewrite (proj2 (getitem_Ok l n x) Hx).
  apply getitem_Ok. now rewrite lookup_app_l.
Qed.

Lemma for_each_ext {A S : Type} (f g : S -> A -> result S) (l : list A) (s : S) :
  (forall s' x, In x l -> f s' x = g s' x) -> for_each f l s = for_each g l s.
Proof.
  revert s. induction l as [|x l IH]; intros s H; [reflexivity|].
  simpl. rewrite (H s x) by now left.
  destruct (g s x); simpl; [|reflexivity].
  apply IH. intros s' y Hy. apply H. now right.
Qed.

(** X20: the number of seeds is the number of uncertainty arrays: prediction
    and label arrays beyond it are never read, so appending some to the lists
    changes neither the result nor the exception raised. *)
Theorem get_incremental_loss_ignores_surplus_seeds
    (y_test y_pred uncertainty extra_test extra_pred : list (list Qc))
    (metrics : list metric) (min_size step_size : Z) :
  (length uncertainty <= length y_test)%nat ->
  (length uncertainty <= length y_pred)%nat ->
  get_incremental_loss (y_test ++ extra_test) (y_pred ++ extra_pred) uncertainty
    metrics min_size step_size
  = get_incremental_loss y_test y_pred uncertainty metrics min_size step_size.
Proof.
  intros Ht Hp. unfold get_incremental_loss.
  apply for_each_ext. intros st m _. unfold metric_run.
  unfold len at 1 3. rewrite range_seeds. cbn [bind].
  rewrite (for_each_ext _
             (fun (acc : list (list spec_float) * option (list row)) n =>
                let! r := seed_run y_test y_pred uncertainty m min_size step_size n in
                Ok (fst acc ++ [fst r], Some (snd r)))); [reflexivity|].
  intros acc z Hz. apply in_map_iff in Hz. destruct Hz as [n [<- Hn]].
  apply in_seq in Hn. unfold seed_run.
  rewrite !getitem_app_l by lia. reflexivity.
Qed.

Lemma get_incremental_loss_ignores_surplus_seeds_witness :
  get_incremental_loss ([[1; 0; 1]%Qc] ++ [[1]%Qc])
    ([[frac 9 10; frac 1 10; frac 7 10]] ++ [[]])
    [[frac 1 10; frac 2 10; frac 3 10]] [accuracy] 1 1
  = get_incremental_loss [[1; 0; 1]%Qc] [[frac 9 10; frac 1 10; frac 7 10]]
      [[frac 1 10; frac 2 10; frac 3 10]] [accuracy] 1 1.
Proof.
  apply (get_incremental_loss_ignores_surplus_seeds
           [[1; 0; 1]%Qc] [[frac 9 10; frac 1 10; frac 7 10]]
           [[frac 1 10; frac 2 10; frac 3 10]] [[1]%Qc] [[]] [accuracy] 1 1);
    simpl; lia.
Defined.

Lemma seeds_loop_returns {A : Type} (run : Z -> result (list spec_float * A))
    (seeds : list Z) (rs : list (list spec_float * A))
    (acc0 : list (list spec_float) * option A) :
  Forall2 (fun n r => run n = Ok r) seeds rs ->
  for_each (fun (acc : list (list spec_float) * option A) n =>
              let! r := run n in Ok (fst acc ++ [fst r], Some (snd r)))
           seeds acc0
  = Ok (fst acc0 ++ map fst rs,
        match last rs with
        | Some r => Some (snd r)
        | None => snd acc0
        end).
Proof.
  intros HF. revert acc0. induction HF as [|n r seeds rs Hr HF IH]; intros acc0.
  - simpl. rewrite app_nil_r. now destruct acc0.
  - cbn [for_each]. rewrite Hr. cbn [bind]. rewrite IH. cbn [fst snd map].
    rewrite <- app_assoc, last_cons. simpl. now destruct (last rs).
Qed.

(** X21: if the loop body returns for every seed but two seeds give different
    numbers of subset sizes, the per-seed scores cannot be stacked and
    [get_incremental_loss] raises [ValueError]. *)
Theorem get_incremental_loss_ragged_seeds
    (y_test y_pred uncertainty : list (list Qc)) (m : metric) (ms : list metric)
    (min_size step_size : Z) (rs : list (list spec_float * list row))
    (n : nat) (u0 un : list Qc) (s0 sn : list Z) :
  Forall2 (fun k r => seed_run y_test y_pred uncertainty m min_size step_size k = Ok r)
          (map Z.of_nat (seq 0 (length uncertainty))) rs ->
  uncertainty !! 0%nat = Some u0 -> uncertainty !! n = Some un ->
  range min_size (len u0) step_size = Ok s0 ->
  range min_size (len un) step_size = Ok sn ->
  length s0 <> length sn ->
  get_incremental_loss y_test y_pred uncertainty (m :: ms) min_size step_size
  = Raise ValueError.
Proof.
  intros HF H0 Hn R0 Rn Hne.
  pose proof (Forall2_length _ _ _ HF) as Hlen.
  rewrite length_map, length_seq in Hlen.
  assert (Hrun : forall k r u s, rs !! k = Some r -> uncertainty !! k = Some u ->
            range min_size (len u) step_size = Ok s -> length (fst r) = length s).
  { intros k r u s Hk Hu Hr.
    destruct (Forall2_lookup_r _ _ _ _ _ HF Hk) as [x [Hx Hs]].
    rewrite map_lookup in Hx.
    assert (Hlt : (k < length uncertainty)%nat) by (apply lookup_lt_Some in Hk; lia).
    rewrite lookup_seq_lt in Hx by assumption. injection Hx as <-.
    apply seed_run_shape in Hs.
    destruct Hs as [_ [u' [_ [s' [_ [Hu' [_ [_ [_ [_ [Hr' Hl]]]]]]]]]]].
    assert (u' = u) by congruence. subst u'. congruence. }
  destruct (lookup_lt_is_Some_2 rs 0) as [r0 Hr0].
  { apply lookup_lt_Some in H0. lia. }
  destruct (lookup_lt_is_Some_2 rs n) as [rn Hrn].
  { apply lookup_lt_Some in Hn. lia. }
  pose proof (Hrun _ _ _ _ Hr0 H0 R0) as L0.
  pose proof (Hrun _ _ _ _ Hrn Hn Rn) as Ln.
  unfold get_incremental_loss. cbn [for_each]. unfold metric_run at 1.
  unfold len at 1. rewrite range_seeds. cbn [bind].
  rewrite (seeds_loop_returns _ _ rs _ HF). cbn [bind fst snd app].
  destruct rs as [|r0' rs']; [discriminate Hr0|].
  injection Hr0 as ->.
  unfold np_mean_axis0, reduce_axis0. cbn [map].
  destruct (forallb _ _) eqn:E; [|reflexivity].
  rewrite forallb_forall in E.
  assert (Hin : In (fst rn) (map fst (r0 :: rs'))).
  { apply in_map. apply list_elem_of_In. eapply list_elem_of_lookup_2. exact Hrn. }
  apply E, Nat.eqb_eq in Hin. lia.
Qed.

Lemma get_incremental_loss_ragged_seeds_witness :
  get_incremental_loss
    [[1; 1; 0]%Qc; [1; 0; 0; 1; 1]%Qc]
    [[frac 9 10; frac 8 10; frac 1 10];
     [frac 9 10; frac 2 10; frac 1 10; frac 7 10; frac 6 10]]
    [[frac 1 10; frac 2 10; frac 3 10];
     [frac 1 10; frac 2 10; frac 3 10; frac 4 10; frac 5 10]]
    [accuracy] 2 1 = Raise ValueError.
Proof.
  eapply (get_incremental_loss_ragged_seeds _ _ _ accuracy [] 2 1 _ 1%nat
            [frac 1 10; frac 2 10; frac 3 10]
            [frac 1 10; frac 2 10; frac 3 10; frac 4 10; frac 5 10]
            [2] [2; 3; 4]).
  - apply List.Forall2_cons; [reflexivity|].
    apply List.Forall2_cons; [reflexivity|]. apply List.Forall2_nil.
  - reflexivity.
  - reflexivity.
  - reflexivity.
  - reflexivity.
  - simpl. lia.
Defined.

(** ** UncertaintyAnalyzer *)

Section Analyzer.

Variable y : list (list Qc).
Variable y_pred_dict : gmap string (list (list Qc)).
Variable metrics : list metric.
Variables min_size step_size : Z.

Local Abbreviation analyze :=
  (fun (self : UncertaintyAnalyzer) (item : string * list (list Qc)) =>
     let key := fst item in
     let! r := get_incremental_loss y (lookup_default y_pred_dict key)
                 (snd item) metrics min_size step_size in
     Ok {| analyzer_xs := <[key := xs r]> (analyzer_xs self);
           loss_dict := <[key := score r]> (loss_dict self);
           loss_std_dict := <[key := score_std r]> (loss_std_dict self) |}).

Lemma analyze_keeps_other_keys (items : list (string * list (list Qc)))
    (self self' : UncertaintyAnalyzer) (key : string) :
  for_each analyze items self = Ok self' ->
  ~ In key (map fst items) ->
  analyzer_xs self' !! key = analyzer_xs self !! key /\
  loss_dict self' !! key = loss_dict self !! key /\
  loss_std_dict self' !! key = loss_std_dict self !! key.
Proof.
  revert self. induction items as [|[k unc] items IH]; intros self H Hk.
  - injection H as <-. auto.
  - cbn [for_each] in H. apply bind_Ok in H. destruct H as [s1 [H1 H]].
    simpl in Hk. apply Decidable.not_or in Hk. destruct Hk as [Hne Hk].
    destruct (IH s1 H Hk) as [-> [-> ->]].
    cbn [fst snd] in H1. apply bind_Ok in H1. destruct H1 as [r [_ H1]].
    injection H1 as <-. cbn [analyzer_xs loss_dict loss_std_dict].
    now rewrite !lookup_insert_ne.
Qed.

Lemma analyze_entries (items : list (string * list (list Qc)))
    (self self' : UncertaintyAnalyzer) (key : string) (unc : list (list Qc)) :
  for_each analyze items self = Ok self' ->
  NoDup (map fst items) ->
  In (key, unc) items ->
  exists r,
    get_incremental_loss y (lookup_default y_pred_dict key) unc metrics
      min_size step_size = Ok r /\
    analyzer_xs self' !! key = Some (xs r) /\
    loss_dict self' !! key = Some (score r) /\
    loss_std_dict self' !! key = Some (score_std r).
Proof.
  revert self. induction items as [|[k u] items IH]; intros self H Hnd Hin;
    [destruct Hin|].
  cbn [for_each] in H. apply bind_Ok in H. destruct H as [s1 [H1 H]].
  simpl in Hnd. apply NoDup_cons in Hnd. destruct Hnd as [Hk Hnd].
  destruct Hin as [[= -> ->]|Hin]; [|now apply (IH s1)].
  cbn [fst snd] in H1. apply bind_Ok in H1. destruct H1 as [r [Hr H1]].
  injection H1 as <-. exists r. split; [exact Hr|].
  assert (Hk' : ~ In key (map fst items)).
  { intros Hc. apply Hk. now apply list_elem_of_In. }
  destruct (analyze_keeps_other_keys items _ _ key H Hk') as [-> [-> ->]].
  cbn [analyzer_xs loss_dict loss_std_dict].
  now rewrite !lookup_insert_eq.
Qed.

End Analyzer.

(** X22: when the analyzer is built, each of its three dictionaries has
    exactly the method names of the uncertainty dictionary as keys, and holds
    for each method what [get_incremental_loss] returns on the labels, that
    method's predictions and that method's uncertainties. *)
Theorem analyzer_holds_every_method (y : list (list Qc))
    (y_pred_dict : gmap string (list (list Qc)))
    (uncertainty_dict : list (string * list (list Qc)))
    (metrics : list metric) (min_size step_size : Z) (self : UncertaintyAnalyzer) :
  calculate_incremental_metrics y y_pred_dict uncertainty_dict metrics
    min_size step_size = Ok self ->
  NoDup (map fst uncertainty_dict) ->
  (forall key unc, In (key, unc) uncertainty_dict ->
     exists r,
       get_incremental_loss y (lookup_default y_pred_dict key) unc metrics
         min_size step_size = Ok r /\
       analyzer_xs self !! key = Some (xs r) /\
       loss_dict self !! key = Some (score r) /\
       loss_std_dict self !! key = Some (score_std r)) /\
  (forall key, ~ In key (map fst uncertainty_dict) ->
     analyzer_xs self !! key = None /\
     loss_dict self !! key = None /\
     loss_std_dict self !! key = None).
Proof.
  intros H Hnd. unfold calculate_incremental_metrics in H. split.
  - intros key unc Hin.
    exact (analyze_entries y y_pred_dict metrics min_size step_size
             uncertainty_dict _ self key unc H Hnd Hin).
  - intros key Hk.
    destruct (analyze_keeps_other_keys y y_pred_dict metrics min_size step_size
                uncertainty_dict _ self key H Hk) as [-> [-> ->]].
    cbn [analyzer_xs loss_dict loss_std_dict]. now rewrite !lookup_empty.
Qed.

(** X23: a method that has uncertainties for at least one seed but no entry
    in the prediction dictionary makes the construction of the analyzer raise
    [IndexError], when there is at least one metric and the methods before it
    went through. *)
Theorem analyzer_method_without_predictions (y : list (list Qc))
    (y_pred_dict : gmap string (list (list Qc)))
    (before after : list (string * list (list Qc)))
    (key : string) (unc : list (list Qc)) (m : metric) (ms : list metric)
    (min_size step_size : Z) (done : UncertaintyAnalyzer) :
  calculate_incremental_metrics y y_pred_dict before (m :: ms) min_size step_size
  = Ok done ->
  y_pred_dict !! key = None ->
  unc <> [] ->
  calculate_incremental_metrics y y_pred_dict (before ++ (key, unc) :: after)
    (m :: ms) min_size step_size = Raise IndexError.
Proof.
  intros Hb Hk Hu. unfold calculate_incremental_metrics in *.
  rewrite for_each_app, Hb. cbn [bind for_each fst snd].
  unfold lookup_default. rewrite Hk. cbn [default].
  rewrite (first_seed_raises y [] unc m ms min_size step_size IndexError Hu eq_refl).
  reflexivity.
Qed.

Lemma analyzer_holds_every_method_witness :
  exists self,
    calculate_incremental_metrics [[1; 1; 0; 0; 1]%Qc]
      (<["mlp" := [[frac 9 10; frac 8 10; frac 1 10; frac 2 10; frac 7 10]]]> ∅)
      [("mlp", [[frac 1 10; frac 3 10; frac 2 10; frac 5 10; frac 4 10]])]
      [accuracy] 2 1 = Ok self /\
    analyzer_xs self !! "knn" = None.
Proof.
  destruct (calculate_incremental_metrics [[1; 1; 0; 0; 1]%Qc]
      (<["mlp" := [[frac 9 10; frac 8 10; frac 1 10; frac 2 10; frac 7 10]]]> ∅)
      [("mlp", [[frac 1 10; frac 3 10; frac 2 10; frac 5 10; frac 4 10]])]
      [accuracy] 2 1) as [self|e] eqn:E.
  - exists self. split; [reflexivity|].
    destruct (proj2 (analyzer_holds_every_method [[1; 1; 0; 0; 1]%Qc]
        (<["mlp" := [[frac 9 10; frac 8 10; frac 1 10; frac 2 10; frac 7 10]]]> ∅)
        [("mlp", [[frac 1 10; frac 3 10; frac 2 10; frac 5 10; frac 4 10]])]
        [accuracy] 2 1 self E
        ltac:(apply NoDup_cons; split; [apply not_elem_of_nil | apply NoDup_nil; exact I]))
        "knn" ltac:(simpl; intros [H|[]]; discriminate H)) as [Hx _].
    exact Hx.
  - exfalso. revert E. unfold calculate_incremental_metrics. cbn [for_each fst snd].
    unfold lookup_default. rewrite lookup_insert_eq. cbn [default].
    change (get_incremental_loss [[1; 1; 0; 0; 1]%Qc]
              [[frac 9 10; frac 8 10; frac 1 10; frac 2 10; frac 7 10]]
              [[frac 1 10; frac 3 10; frac 2 10; frac 5 10; frac 4 10]]
              [accuracy] 2 1)
      with (Ok (A := loss_state)
              (match get_incremental_loss [[1; 1; 0; 0; 1]%Qc]
                       [[frac 9 10; frac 8 10; frac 1 10; frac 2 10; frac 7 10]]
                       [[frac 1 10; frac 3 10; frac 2 10; frac 5 10; frac 4 10]]
                       [accuracy] 2 1 with
               | Ok r => r
               | Raise _ => {| xs := ∅; score := ∅; score_std := ∅; sorted_df := None |}
               end)).
    discriminate.
Defined.

Lemma analyzer_method_without_predictions_witness :
  calculate_incremental_metrics [[1; 0]%Qc] ∅
    ([] ++ [("knn", [[frac 1 10; frac 2 10]])]) [accuracy] 1 1
  = Raise IndexError.
Proof.
  apply (analyzer_method_without_predictions [[1; 0]%Qc] ∅ [] [] "knn"
           [[frac 1 10; frac 2 10]] accuracy [] 1 1
           {| analyzer_xs := ∅; loss_dict := ∅; loss_std_dict := ∅ |}).
  - reflexivity.
  - apply lookup_empty.
  - discriminate.
Defined.

(** ** get_incremental_loss: the slices for any sign of the sizes *)

Lemma range_neg_above_stop (start stop step : Z) (sizes : list Z) :
  step < 0 -> range start stop step = Ok sizes -> Forall (fun i => stop < i) sizes.
Proof.
  intros Hs. unfold range.
  assert (E : (step =? 0) = false) by (apply Z.eqb_neq; lia). rewrite E.
  intros [= <-]. apply List.Forall_forall. intros i Hi.
  apply in_map_iff in Hi. destruct Hi as [k [<- Hk]]. apply in_seq in Hk.
  unfold range_length in Hk.
  assert (E0 : (0 <? step) = false) by (apply Z.ltb_ge; lia). rewrite E0 in Hk.
  destruct (stop <? start) eqn:L; [|simpl in Hk; lia].
  apply Z.ltb_lt in L.
  pose proof (Z.div_mod (start - stop - 1) (- step) ltac:(lia)) as D.
  pose proof (Z.mod_pos_bound (start - stop - 1) (- step) ltac:(lia)) as M.
  nia.
Qed.

(** X24: the slices [sorted_df[:i]] on which a seed's metric is evaluated.
    For a positive step every size [i] is below the number [n] of points, and
    the slice holds the first [i] rows when [i >= 0] but the first [n + i]
    rows (none if that is negative) when [i < 0], in both cases fewer than
    all unless the frame is empty; for a negative step every size exceeds [n]
    and each slice is the whole frame. *)
Theorem incremental_scores_slices (m : metric) (df : list row)
    (min_size step_size : Z) (temp_score : list spec_float) :
  incremental_scores m df min_size step_size = Ok temp_score ->
  exists sizes,
    range min_size (len df) step_size = Ok sizes /\
    Forall2 (fun i s =>
               metric_call m (map row_y (slice_to df i)) (map row_y_pred (slice_to df i))
               = Ok s) sizes temp_score /\
    (0 < step_size ->
     Forall (fun i =>
               i < len df /\
               slice_to df i
               = firstn (Z.to_nat (if 0 <=? i then i else len df + i)) df /\
               (df <> [] -> (length (slice_to df i) < length df)%nat)) sizes) /\
    (step_size < 0 -> Forall (fun i => len df < i /\ slice_to df i = df) sizes).
Proof.
  unfold incremental_scores. intros H.
  apply bind_Ok in H. destruct H as [sizes [Hr H]]. apply map_each_Ok in H.
  exists sizes. split; [exact Hr|]. split; [exact H|]. split.
  - intros Hs. destruct (range_pos min_size (len df) step_size Hs)
      as [sizes' [Hr' [_ Hin]]].
    assert (sizes' = sizes) by congruence. subst sizes'.
    apply List.Forall_forall. intros i Hi. apply Hin in Hi.
    destruct Hi as [k [Hk [-> Hlt]]]. split; [exact Hlt|].
    unfold slice_to, len in *. destruct (0 <=? min_size + k * step_size) eqn:E.
    + apply Z.leb_le in E. split; [reflexivity|]. intros _.
      rewrite length_firstn. lia.
    + apply Z.leb_gt in E. split; [reflexivity|]. intros Hne.
      assert (0 < length df)%nat by (destruct df; [congruence|simpl; lia]).
      rewrite length_firstn. lia.
  - intros Hs. pose proof (range_neg_above_stop _ _ _ _ Hs Hr) as Ha.
    apply (List.Forall_impl _ (P := fun i => len df < i)); [|exact Ha].
    intros i Hi. split; [exact Hi|].
    unfold slice_to, len in *.
    assert (E : (0 <=? i) = true) by (apply Z.leb_le; lia). rewrite E.
    apply firstn_all2. lia.
Qed.

Lemma incremental_scores_slices_witness :
  exists temp_score sizes,
    incremental_scores last_probability
      [ {| row_y_pred := frac 9 10; row_minimum_y_pred := frac 1 10;
           row_uncertainty := frac 1 10; row_y := 1%Qc |};
        {| row_y_pred := frac 2 10; row_minimum_y_pred := frac 2 10;
           row_uncertainty := frac 2 10; row_y := 0%Qc |};
        {| row_y_pred := frac 6 10; row_minimum_y_pred := frac 4 10;
           row_uncertainty := frac 3 10; row_y := 1%Qc |} ] (-1) 2 = Ok temp_score /\
    range (-1) 3 2 = Ok sizes /\
    Forall (fun i => i < 3) sizes.
Proof.
  eexists. 
  destruct (incremental_scores_slices last_probability
      [ {| row_y_pred := frac 9 10; row_minimum_y_pred := frac 1 10;
           row_uncertainty := frac 1 10; row_y := 1%Qc |};
        {| row_y_pred := frac 2 10; row_minimum_y_pred := frac 2 10;
           row_uncertainty := frac 2 10; row_y := 0%Qc |};
        {| row_y_pred := frac 6 10; row_minimum_y_pred := frac 4 10;
           row_uncertainty := frac 3 10; row_y := 1%Qc |} ] (-1) 2 _ eq_refl)
    as [sizes [Hr [_ [Hpos _]]]].
  exists sizes. split; [reflexivity|]. split; [exact Hr|].
  eapply List.Forall_impl; [|exact (Hpos ltac:(lia))].
  intros i [Hi _]. exact Hi.
Defined.

(** ** MLP.train without early stopping *)

Lemma epoch_loop_ignores_validate (validate validate' : nat -> Qc) (patience : Z)
    (r e : nat) (n : Z) (prev : best_loss) :
  epoch_loop validate false patience r e n prev
  = epoch_loop validate' false patience r e n prev.
Proof.
  revert e. induction r as [|r IH]; intros e; [reflexivity|].
  cbn [epoch_loop]. destruct (patience <=? n); [reflexivity | apply IH].
Qed.

(** X25: with early stopping disabled the validation loss is never consulted:
    training ends in the same state whatever the validation losses would have
    been, after one epoch if the patience is at most 0 and after [n_epochs]
    epochs otherwise (none if [n_epochs <= 0]). *)
Theorem train_without_early_stopping (validate validate' : nat -> Qc)
    (patience n_epochs : Z) :
  train validate false patience n_epochs = train validate' false patience n_epochs /\
  epochs_run (train validate false patience n_epochs)
  = (if patience <=? 0 then Nat.min 1 (Z.to_nat n_epochs) else Z.to_nat n_epochs) /\
  n_no_improvement (train validate false patience n_epochs) = 0 /\
  prev_val_loss (train validate false patience n_epochs) = Inf.
Proof.
  split; [apply epoch_loop_ignores_validate|].
  unfold train. destruct (patience <=? 0) eqn:E.
  - destruct (Z.to_nat n_epochs) as [|r]; [auto|].
    cbn [epoch_loop]. rewrite E. auto.
  - apply Z.leb_gt in E.
    rewrite epoch_loop_without_early_stopping by lia. auto.
Qed.
